(** * GPS telemetry pipeline: producer, consumer and query endpoint

    A shallow embedding of [producer/main.go] and [consumer/main.go].

    - float64 values are kept behind the interface [Float64Ops], with two
      instances: IEEE-754 binary64 (Rocq's primitive floats) and exact
      rational arithmetic.
    - Everything the two programs obtain from outside their own code
      (math/rand, the clock, encoding/json's text layer, strconv, the Kafka
      client, the SQLite driver) is collected in the interface [Runtime].
    - Goroutine loops are functions over the sequence of outcomes of their
      [select] statement. *)

From Stdlib Require Import ZArith List String Ascii Bool Lia.
From Stdlib Require Import QArith Qabs Qround Lqa.
From Stdlib Require Import Floats Uint63.
From Stdlib Require Import Sorting.Sorted Permutation.
From Stdlib Require Import DecimalString.
Import ListNotations.

Local Open Scope string_scope.
Local Open Scope list_scope.

(** ** float64 *)

(** The float64 operations the two programs use.  [flit] is a decimal
    literal of the source text, [ffinite x] is
    [!math.IsNaN(x) && !math.IsInf(x, 0)]. *)
Class Float64Ops (F : Type) : Type := {
  fadd : F -> F -> F;
  fsub : F -> F -> F;
  fmul : F -> F -> F;
  fltb : F -> F -> bool;
  flit : Q -> F;
  ffinite : F -> bool
}.

(** ** Data model *)

(** [type Location struct] (producer/main.go:28). *)
Record Location (F : Type) : Type := { Lat : F; Lon : F }.
Arguments Lat {F} _.
Arguments Lon {F} _.

(** [type User struct] (producer/main.go:21). *)
Record User (F : Type) : Type := { ID : string; Name : string; Base : Location F }.
Arguments ID {F} _.
Arguments Name {F} _.
Arguments Base {F} _.

(** [type CoordinateEvent struct] (producer/main.go:34, consumer/main.go:24).
    The two declarations have the same fields; they differ in the
    [omitempty] option of [session_id], which only matters when encoding. *)
Record CoordinateEvent (F : Type) : Type := {
  UserID : string;
  SessionID : string;
  EvLat : F;
  EvLon : F;
  Timestamp : string
}.
Arguments UserID {F} _.
Arguments SessionID {F} _.
Arguments EvLat {F} _.
Arguments EvLon {F} _.
Arguments Timestamp {F} _.

(** [type LocationEvent struct] (producer/main.go:43). *)
Record LocationEvent (F : Type) : Type := {
  LocUserID : string;
  LocSessionID : string;
  LocLocation : string;
  LocLat : F;
  LocLon : F;
  LocTimestamp : string
}.
Arguments LocUserID {F} _.
Arguments LocSessionID {F} _.
Arguments LocLocation {F} _.
Arguments LocLat {F} _.
Arguments LocLon {F} _.
Arguments LocTimestamp {F} _.

(** A row of the table [coordinates] (consumer/main.go:109-116).  Only
    [session_id] lacks NOT NULL. *)
Record Row (F : Type) : Type := {
  row_id : Z;
  user_id : string;
  session_id : option string;
  lat : F;
  lon : F;
  timestamp : string
}.
Arguments row_id {F} _.
Arguments user_id {F} _.
Arguments session_id {F} _.
Arguments lat {F} _.
Arguments lon {F} _.
Arguments timestamp {F} _.

(** A JSON document.  Numbers keep their literal text, as in JSON itself. *)
#[warnings="-register-all"]
Inductive json : Type :=
| JNull
| JBool (b : bool)
| JNum (lit : string)
| JStr (s : string)
| JArr (items : list json)
| JObj (members : list (string * json)).

(** [kafka.Message]: topic, key and value of a record. *)
Record Message : Type := { Topic : string; Key : string; Value : string }.

(** What the producer client was asked to do, in call order, with the
    answer it gave: [Produce] returned nil ([accepted = true]) or an error;
    [Flush] returned the number of events still outstanding. *)
Inductive KCall : Type :=
| CProduce (m : Message) (accepted : bool)
| CFlush (timeoutMs : Z) (outstanding : nat).

(** What [Consumer.Poll] hands to the consume loop. *)
Inductive KEvent : Type :=
| KMessage (value : string)
| KError (err : string)
| KOther.

(** One turn of the consumer's [select]: a signal was pending, or the
    default branch polled (nil on timeout). *)
Inductive LoopInput : Type :=
| Signal (sig : string)
| Poll (ev : option KEvent).

(** The parts of [http.Request] and of the response the handlers touch. *)
Record Request : Type := {
  Method : string;
  Query : list (string * string);
  Body : string
}.

Record Response : Type := {
  Status : Z;
  Headers : list (string * string);
  RespBody : string
}.

(** ** The runtime: libraries and external services *)

Class Runtime (F : Type) : Type := {
  (* math/rand *)
  RNG : Type;
  rand_Float64 : RNG -> F * RNG;
  rand_Intn : nat -> RNG -> nat * RNG;
  (* time *)
  Clock : Type;
  time_Now : Clock -> string * Clock;
  time_Sleep : Clock -> Clock;
  (* strconv and encoding/json *)
  formatFloat : F -> string;
  parseFloat : string -> option F;
  json_render : json -> string;
  json_parse : string -> option json;
  json_read : string -> option json;
  equalFold : string -> string -> bool;
  (* confluent-kafka-go producer *)
  kafka_accepts : list KCall -> Message -> bool;
  kafka_outstanding : Z -> list KCall -> nat;
  (* database/sql with go-sqlite3 *)
  db_Exec_fails : list (Row F) -> CoordinateEvent F -> bool;
  db_Query_fails : list (Row F) -> bool
}.

(** ** Two readings of float64 *)

(** IEEE-754 binary64, round to nearest even: what the Go programs run on.
    A decimal literal [n/d] with [n] and [d] below 2^53 is the correctly
    rounded quotient of two exactly represented integers, that is the
    float64 nearest to the literal. *)
Definition binary64_lit (q : Q) : float :=
  let n := Qnum q in
  let a := PrimFloat.of_uint63 (Uint63.of_Z (Z.abs n)) in
  let d := PrimFloat.of_uint63 (Uint63.of_Z (Z.pos (Qden q))) in
  let v := PrimFloat.div a d in
  if (n <? 0)%Z then PrimFloat.opp v else v.

#[export] Instance binary64 : Float64Ops float := {
  fadd := PrimFloat.add;
  fsub := PrimFloat.sub;
  fmul := PrimFloat.mul;
  fltb := PrimFloat.ltb;
  flit := binary64_lit;
  ffinite := PrimFloat.is_finite
}.


(** Exact rational arithmetic: float64 with rounding, overflow and NaN
    idealised away. *)
#[export] Instance exact : Float64Ops Q := {
  fadd := Qplus;
  fsub := Qminus;
  fmul := Qmult;
  fltb := fun x y => negb (Qle_bool y x);
  flit := fun q => q;
  ffinite := fun _ => true
}.


(** ** The programs *)

Definition newline : string := String (ascii_of_nat 10) EmptyString.

Section Pipeline.

Context {F : Type} {ops : Float64Ops F} {rt : Runtime F}.

(** *** encoding/json on the event structs *)

(** The document [json.Marshal] builds for the producer's
    [CoordinateEvent]: one member per field, named by its tag, in
    declaration order. *)
Definition CoordinateEvent_doc (e : CoordinateEvent F) : json :=
  JObj [ ("user_id", JStr (UserID e));
         ("session_id", JStr (SessionID e));
         ("lat", JNum (formatFloat (EvLat e)));
         ("lon", JNum (formatFloat (EvLon e)));
         ("timestamp", JStr (Timestamp e)) ].

(** The same for the consumer's declaration, whose [session_id] carries
    [omitempty]. *)
Definition CoordinateEvent_doc_omitempty (e : CoordinateEvent F) : json :=
  JObj ( ("user_id", JStr (UserID e))
         :: (if String.eqb (SessionID e) "" then []
             else [ ("session_id", JStr (SessionID e)) ])
         ++ [ ("lat", JNum (formatFloat (EvLat e)));
              ("lon", JNum (formatFloat (EvLon e)));
              ("timestamp", JStr (Timestamp e)) ] ).

Definition LocationEvent_doc (e : LocationEvent F) : json :=
  JObj [ ("user_id", JStr (LocUserID e));
         ("session_id", JStr (LocSessionID e));
         ("location", JStr (LocLocation e));
         ("lat", JNum (formatFloat (LocLat e)));
         ("lon", JNum (formatFloat (LocLon e)));
         ("timestamp", JStr (LocTimestamp e)) ].

(** [json.Marshal] fails on a float64 that is NaN or infinite, and on
    nothing else these structs can hold. *)
Definition json_Marshal_CoordinateEvent (e : CoordinateEvent F) : option string :=
  if ffinite (EvLat e) && ffinite (EvLon e)
  then Some (json_render (CoordinateEvent_doc e))
  else None.

Definition json_Marshal_LocationEvent (e : LocationEvent F) : option string :=
  if ffinite (LocLat e) && ffinite (LocLon e)
  then Some (json_render (LocationEvent_doc e))
  else None.

(** A Go slice is nil or holds elements; a nil slice encodes as [null]. *)
Definition json_Marshal_events (events : option (list (CoordinateEvent F)))
  : option string :=
  match events with
  | None => Some (json_render JNull)
  | Some l =>
      if forallb (fun e => ffinite (EvLat e) && ffinite (EvLon e)) l
      then Some (json_render (JArr (map CoordinateEvent_doc_omitempty l)))
      else None
  end.

(** Decoding into a [CoordinateEvent]. *)
Inductive Field : Type := FUserID | FSessionID | FLat | FLon | FTimestamp.

Definition tag (f : Field) : string :=
  match f with
  | FUserID => "user_id"
  | FSessionID => "session_id"
  | FLat => "lat"
  | FLon => "lon"
  | FTimestamp => "timestamp"
  end.

Definition fields : list Field := [FUserID; FSessionID; FLat; FLon; FTimestamp].

(** A member names the field whose tag it equals, or else the first field
    whose tag it equals up to case. *)
Definition findField (key : string) : option Field :=
  match find (fun f => String.eqb (tag f) key) fields with
  | Some f => Some f
  | None => find (fun f => equalFold (tag f) key) fields
  end.

Definition zeroEvent : CoordinateEvent F :=
  {| UserID := ""; SessionID := ""; EvLat := flit 0; EvLon := flit 0;
     Timestamp := "" |}.

(** [null] leaves a field as it is; a value of the wrong kind, or a number
    that does not fit float64, is an error. *)
Definition assignField (f : Field) (v : json) (e : CoordinateEvent F)
  : option (CoordinateEvent F) :=
  match v with
  | JNull => Some e
  | JStr s =>
      match f with
      | FUserID =>
          Some {| UserID := s; SessionID := SessionID e; EvLat := EvLat e;
                  EvLon := EvLon e; Timestamp := Timestamp e |}
      | FSessionID =>
          Some {| UserID := UserID e; SessionID := s; EvLat := EvLat e;
                  EvLon := EvLon e; Timestamp := Timestamp e |}
      | FTimestamp =>
          Some {| UserID := UserID e; SessionID := SessionID e; EvLat := EvLat e;
                  EvLon := EvLon e; Timestamp := s |}
      | _ => None
      end
  | JNum lit =>
      match f, parseFloat lit with
      | FLat, Some x =>
          Some {| UserID := UserID e; SessionID := SessionID e; EvLat := x;
                  EvLon := EvLon e; Timestamp := Timestamp e |}
      | FLon, Some x =>
          Some {| UserID := UserID e; SessionID := SessionID e; EvLat := EvLat e;
                  EvLon := x; Timestamp := Timestamp e |}
      | _, _ => None
      end
  | _ => None
  end.

Fixpoint assignMembers (ms : list (string * json)) (e : CoordinateEvent F)
  : option (CoordinateEvent F) :=
  match ms with
  | [] => Some e
  | (k, v) :: ms' =>
      match findField k with
      | None => assignMembers ms' e
      | Some f =>
          match assignField f v e with
          | Some e' => assignMembers ms' e'
          | None => None
          end
      end
  end.

Definition decodeEvent (d : json) : option (CoordinateEvent F) :=
  match d with
  | JObj ms => assignMembers ms zeroEvent
  | JNull => Some zeroEvent
  | _ => None
  end.

(** [json.Unmarshal(data, &event)] on a fresh [event]. *)
Definition json_Unmarshal (data : string) : option (CoordinateEvent F) :=
  match json_parse data with
  | Some d => decodeEvent d
  | None => None
  end.

(** [json.NewDecoder(body).Decode(&event)]: the first value of the stream. *)
Definition json_Decode (body : string) : option (CoordinateEvent F) :=
  match json_read body with
  | Some d => decodeEvent d
  | None => None
  end.

(** *** producer/main.go *)

(** [users] and [locations], the package-level variables. *)
Definition users : list (User F) :=
  [ {| ID := "Ashish"; Name := "Ashish";
       Base := {| Lat := flit (407128 # 10000); Lon := flit (-740060 # 10000) |} |};
    {| ID := "Saranya"; Name := "Saranya";
       Base := {| Lat := flit (340522 # 10000); Lon := flit (-1182437 # 10000) |} |};
    {| ID := "Cookie"; Name := "Cookie";
       Base := {| Lat := flit (515074 # 10000); Lon := flit (-1278 # 10000) |} |} ].

Definition locations : list string := ["Park"; "Trailhead"; "Downtown"; "Beach"].

(** [generateCoordinate]: two draws from math/rand, latitude first. *)
Definition generateCoordinate (base : Location F) (g : RNG) : Location F * RNG :=
  let (r1, g1) := rand_Float64 g in
  let (r2, g2) := rand_Float64 g1 in
  ({| Lat := fsub (fadd (Lat base) (fmul r1 (flit (2 # 100)))) (flit (1 # 100));
      Lon := fsub (fadd (Lon base) (fmul r2 (flit (2 # 100)))) (flit (1 # 100)) |},
   g2).

(** The state the producer process works on: the random source, the clock,
    the calls made on the Kafka client, and the log. *)
Record PState : Type := {
  rng : RNG;
  clock : Clock;
  calls : list KCall;
  plog : list string
}.

Definition plogf (line : string) (st : PState) : PState :=
  {| rng := rng st; clock := clock st; calls := calls st;
     plog := plog st ++ [line] |}.

(** [producer.Produce(&msg, nil)]; true when it returned nil. *)
Definition Produce (m : Message) (st : PState) : bool * PState :=
  let ok := kafka_accepts (calls st) m in
  (ok, {| rng := rng st; clock := clock st;
          calls := calls st ++ [CProduce m ok]; plog := plog st |}).

(** [producer.Flush(ms)], result dropped as both callers do. *)
Definition Flush (timeoutMs : Z) (st : PState) : PState :=
  {| rng := rng st; clock := clock st;
     calls := calls st ++ [CFlush timeoutMs (kafka_outstanding timeoutMs (calls st))];
     plog := plog st |}.

(** The body of [for _, user := range users] (lines 100-162).  Each
    [continue] of the source leaves the body before [Flush(0)]. *)
Definition userStep (user : User F) (st : PState) : PState :=
  let (pos, g1) := generateCoordinate (Base user) (rng st) in
  let (now, c1) := time_Now (clock st) in
  let st1 := {| rng := g1; clock := c1; calls := calls st; plog := plog st |} in
  let coordEvent :=
    {| UserID := ID user; SessionID := "s1"; EvLat := Lat pos; EvLon := Lon pos;
       Timestamp := now |} in
  match json_Marshal_CoordinateEvent coordEvent with
  | None => plogf "Error marshaling coordinate event" st1
  | Some coordData =>
      let (ok, st2) :=
        Produce {| Topic := "coordinates"; Key := ID user; Value := coordData |} st1 in
      let st3 := if ok then st2 else plogf "Error producing coordinate event" st2 in
      let (chance, g2) := rand_Float64 (rng st3) in
      let st4 := {| rng := g2; clock := clock st3; calls := calls st3;
                    plog := plog st3 |} in
      if fltb chance (flit (1 # 10)) then
        let (k, g3) := rand_Intn (List.length locations) (rng st4) in
        let st5 := {| rng := g3; clock := clock st4; calls := calls st4;
                      plog := plog st4 |} in
        let locEvent :=
          {| LocUserID := ID user; LocSessionID := "s1";
             LocLocation := nth k locations "";
             LocLat := Lat pos; LocLon := Lon pos; LocTimestamp := now |} in
        match json_Marshal_LocationEvent locEvent with
        | None => plogf "Error marshaling location event" st5
        | Some locData =>
            let (ok', st6) :=
              Produce {| Topic := "locations"; Key := ID user; Value := locData |} st5 in
            let st7 := if ok' then st6 else plogf "Error producing location event" st6 in
            Flush 0 st7
        end
      else Flush 0 st4
  end.

(** One pass of the [range] loop over a roster. *)
Definition rosterPass (roster : list (User F)) (st : PState) : PState :=
  fold_left (fun s u => userStep u s) roster st.

Definition sleep5s (st : PState) : PState :=
  {| rng := rng st; clock := time_Sleep (clock st); calls := calls st;
     plog := plog st |}.

(** The [for { select { case <-done: ... default: ... } }] of
    [generateEvents].  [done] lists, for each arrival at the [select], whether
    a value was waiting on the channel.  The result tells whether the
    function returned ([true]) or is still looping when the list ends. *)
Fixpoint tickLoop (done : list bool) (st : PState) : PState * bool :=
  match done with
  | [] => (st, false)
  | true :: _ => (plogf "Stopping GPS event generation" st, true)
  | false :: done' => tickLoop done' (sleep5s (rosterPass users st))
  end.

Definition generateEvents (done : list bool) (st : PState) : PState * bool :=
  tickLoop done (plogf "Starting GPS event generation" st).

(** [http.Error(w, msg, code)]. *)
Definition http_Error (hs : list (string * string)) (msg : string) (code : Z)
  : Response :=
  {| Status := code; Headers := hs; RespBody := msg ++ newline |}.

(** The handler registered for [/produce] (lines 197-235). *)
Definition produceHandler (r : Request) (st : PState) : Response * PState :=
  if negb (String.eqb (Method r) "POST") then
    (http_Error [] "POST only" 405, st)
  else
    match json_Decode (Body r) with
    | None => (http_Error [] "Invalid JSON" 400, st)
    | Some decoded =>
        let (event, st1) :=
          if String.eqb (Timestamp decoded) "" then
            let (now, c1) := time_Now (clock st) in
            ({| UserID := UserID decoded; SessionID := SessionID decoded;
                EvLat := EvLat decoded; EvLon := EvLon decoded; Timestamp := now |},
             {| rng := rng st; clock := c1; calls := calls st; plog := plog st |})
          else (decoded, st) in
        match json_Marshal_CoordinateEvent event with
        | None => (http_Error [] "Error serializing event" 500, st1)
        | Some data =>
            let (ok, st2) :=
              Produce {| Topic := "coordinates"; Key := UserID event; Value := data |}
                      st1 in
            if ok then
              ({| Status := 200; Headers := []; RespBody := "ok" |}, Flush 1000 st2)
            else (http_Error [] "Error producing message" 500, st2)
        end
    end.

(** *** consumer/main.go *)

(** The consumer process: the table [coordinates], the log, and the
    [running] flag of the consume loop. *)
Record CState : Type := {
  table : list (Row F);
  clog : list string;
  running : bool
}.

Definition clogf (line : string) (st : CState) : CState :=
  {| table := table st; clog := clog st ++ [line]; running := running st |}.

(** [url.Values.Get]: the first value given for the key, or the empty
    string. *)
Fixpoint Query_Get (q : list (string * string)) (key : string) : string :=
  match q with
  | [] => ""
  | (k, v) :: q' => if String.eqb k key then v else Query_Get q' key
  end.

(** [strconv.Atoi] with a 64-bit [int]: an optional sign, then one or more
    decimal digits; a value outside the range of [int] is an error. *)
Definition digitValue (c : ascii) : option Z :=
  let n := nat_of_ascii c in
  if (48 <=? n)%nat && (n <=? 57)%nat then Some (Z.of_nat (n - 48)) else None.

Fixpoint digitsValue (s : string) (acc : Z) : option Z :=
  match s with
  | EmptyString => Some acc
  | String c s' =>
      match digitValue c with
      | Some d => digitsValue s' (acc * 10 + d)%Z
      | None => None
      end
  end.

Definition splitSign (s : string) : bool * string :=
  match s with
  | String c s' =>
      if Ascii.eqb c "-"%char then (true, s')
      else if Ascii.eqb c "+"%char then (false, s')
      else (false, s)
  | EmptyString => (false, s)
  end.

Definition Atoi (s : string) : option Z :=
  let (neg, body) := splitSign s in
  match body with
  | EmptyString => None
  | _ =>
      match digitsValue body 0 with
      | None => None
      | Some v =>
          let n := if neg then (- v)%Z else v in
          if (- 2 ^ 63 <=? n)%Z && (n <=? 2 ^ 63 - 1)%Z then Some n else None
      end
  end.

(** Lines 42-48: the limit the query will carry. *)
Definition limitOf (limit : string) : Z :=
  let limitNum := 50%Z in
  if negb (String.eqb limit "") then
    match Atoi limit with
    | Some n => if (0 <? n)%Z then n else limitNum
    | None => limitNum
    end
  else limitNum.

(** The statement assembled in lines 51-64:
    [SELECT user_id, session_id, lat, lon, timestamp FROM coordinates
     WHERE 1=1 [AND user_id = ?] ORDER BY timestamp DESC LIMIT ?]
    with its arguments. *)
Record SelectQuery : Type := {
  where_user_id : option string;
  limit_arg : Z
}.

Definition buildQuery (userID : string) (limitNum : Z) : SelectQuery :=
  {| where_user_id := if negb (String.eqb userID "") then Some userID else None;
     limit_arg := limitNum |}.

(** [ORDER BY timestamp DESC] on a TEXT column compares byte strings.  Rows
    with equal timestamps are kept in table order here; SQLite promises no
    order among them. *)
Fixpoint insert_desc (r : Row F) (l : list (Row F)) : list (Row F) :=
  match l with
  | [] => [r]
  | x :: l' =>
      if String.ltb (timestamp r) (timestamp x) then x :: insert_desc r l'
      else r :: l
  end.

Fixpoint order_by_timestamp_desc (l : list (Row F)) : list (Row F) :=
  match l with
  | [] => []
  | r :: l' => insert_desc r (order_by_timestamp_desc l')
  end.

Definition matches (q : SelectQuery) (r : Row F) : bool :=
  match where_user_id q with
  | Some u => String.eqb (user_id r) u
  | None => true
  end.

(** [db.Query(query, args...)]: [None] is a driver error.  A negative
    LIMIT means no limit in SQLite. *)
Definition db_Query (q : SelectQuery) (t : list (Row F)) : option (list (Row F)) :=
  if db_Query_fails t then None
  else
    let ordered := order_by_timestamp_desc (filter (matches q) t) in
    Some (if (limit_arg q <? 0)%Z then ordered
          else firstn (Z.to_nat (limit_arg q)) ordered).

(** [rows.Scan] into two strings and two floats: a NULL [session_id]
    cannot be converted to a string. *)
Definition rows_Scan (r : Row F) : option (CoordinateEvent F) :=
  match session_id r with
  | Some s =>
      Some {| UserID := user_id r; SessionID := s; EvLat := lat r; EvLon := lon r;
              Timestamp := timestamp r |}
  | None => None
  end.

Definition slice_append {A : Type} (s : option (list A)) (x : A) : option (list A) :=
  match s with
  | None => Some [x]
  | Some l => Some (l ++ [x])
  end.

(** The [for rows.Next()] loop (lines 77-91). *)
Fixpoint collect (rows : list (Row F)) (events : option (list (CoordinateEvent F)))
  (st : CState) : option (list (CoordinateEvent F)) * CState :=
  match rows with
  | [] => (events, st)
  | r :: rows' =>
      match rows_Scan r with
      | None => collect rows' events (clogf "Error scanning row" st)
      | Some event => collect rows' (slice_append events event) st
      end
  end.

Definition corsHeaders : list (string * string) :=
  [ ("Access-Control-Allow-Origin", "*"); ("Access-Control-Allow-Methods", "GET") ].

(** [getEvents(db)], the handler of [/events]. *)
Definition getEvents (r : Request) (st : CState) : Response * CState :=
  let userID := Query_Get (Query r) "user_id" in
  let limit := Query_Get (Query r) "limit" in
  let limitNum := limitOf limit in
  match db_Query (buildQuery userID limitNum) (table st) with
  | None =>
      (http_Error corsHeaders "Database error" 500,
       clogf "Error querying database" st)
  | Some rows =>
      let (events, st') := collect rows (Some []) st in
      let hs := corsHeaders ++ [("Content-Type", "application/json")] in
      match json_Marshal_events events with
      | Some text => ({| Status := 200; Headers := hs; RespBody := text ++ newline |}, st')
      | None => ({| Status := 200; Headers := hs; RespBody := "" |}, st')
      end
  end.

(** The AUTOINCREMENT key: one more than the largest key in use (the
    pipeline never deletes). *)
Definition next_id (t : list (Row F)) : Z :=
  (1 + fold_right Z.max 0 (map row_id t))%Z.

(** [stmt.Exec(event.UserID, event.SessionID, event.Lat, event.Lon,
    event.Timestamp)] on the prepared INSERT. *)
Definition stmt_Exec (event : CoordinateEvent F) (t : list (Row F))
  : option (list (Row F)) :=
  if db_Exec_fails t event then None
  else Some (t ++ [ {| row_id := next_id t; user_id := UserID event;
                       session_id := Some (SessionID event);
                       lat := EvLat event; lon := EvLon event;
                       timestamp := Timestamp event |} ]).

(** One turn of [for running { select { ... } }] (lines 165-201). *)
Definition consumeStep (i : LoopInput) (st : CState) : CState :=
  match i with
  | Signal _ =>
      {| table := table st; clog := clog st ++ ["Caught signal: terminating"];
         running := false |}
  | Poll None => st
  | Poll (Some (KMessage value)) =>
      match json_Unmarshal value with
      | None => clogf "Error unmarshaling message" st
      | Some event =>
          match stmt_Exec event (table st) with
          | None => clogf "Error inserting into database" st
          | Some t' =>
              {| table := t'; clog := clog st ++ ["Stored event"];
                 running := running st |}
          end
      end
  | Poll (Some (KError _)) => clogf "Kafka error" st
  | Poll (Some KOther) => st
  end.

Fixpoint consumeLoop (inputs : list LoopInput) (st : CState) : CState :=
  match inputs with
  | [] => st
  | i :: inputs' =>
      if running st then consumeLoop inputs' (consumeStep i st) else st
  end.

End Pipeline.

(** ** A concrete runtime

    A small, executable stand-in for the libraries and services, used to run
    the model on concrete inputs: a random source that replays a list of
    samples, a clock that counts seconds, a JSON printer and parser for the
    fragment the pipeline uses, exact decimal formatting of binary64
    numbers, a Kafka client with a bounded queue and a broker that may be
    down, and a database that may refuse statements. *)
Module Sim.

Local Open Scope string_scope.

Definition dquote : ascii := ascii_of_nat 34.
Definition backslash : ascii := ascii_of_nat 92.

Definition decZ (z : Z) : string := NilZero.string_of_int (Z.to_int z).

Definition readZ (s : string) : option Z :=
  match s with
  | EmptyString => None
  | _ => option_map Z.of_int (NilZero.int_of_string s)
  end.

(** *** Numbers *)

(** Every finite binary64 number [m * 2^e] has the exact decimal literal
    [m * 2^e] (for [0 <= e]) or [(m * 5^-e)e-(-e)]. *)
Definition format_binary64 (x : float) : string :=
  match Prim2SF x with
  | S754_zero _ => "0"
  | S754_finite s m e =>
      let mant := if s then Z.neg m else Z.pos m in
      if (0 <=? e)%Z then decZ (mant * 2 ^ e)
      else decZ (mant * 5 ^ (- e)) ++ "e-" ++ decZ (- e)
  | _ => "NaN"
  end.

Fixpoint splitAt (c : ascii) (s : string) : string * option string :=
  match s with
  | EmptyString => (EmptyString, None)
  | String a s' =>
      if Ascii.eqb a c then (EmptyString, Some s')
      else let (l, r) := splitAt c s' in (String a l, r)
  end.

Definition float_of_Z (z : Z) : float :=
  let a := PrimFloat.of_uint63 (Uint63.of_Z (Z.abs z)) in
  if (z <? 0)%Z then PrimFloat.opp a else a.

(** Reads [<int>] and [<int>e-<k>].  Literals that denote a binary64 number
    with a mantissa below 2^53 are read exactly; the others are rounded
    twice. *)
Definition parse_binary64 (s : string) : option float :=
  match splitAt "e"%char s with
  | (m, None) => option_map float_of_Z (readZ m)
  | (m, Some ex) =>
      match readZ m, readZ ex with
      | Some n, Some k =>
          if (k <=? 0)%Z then
            let p := (5 ^ (- k))%Z in
            if (n mod p =? 0)%Z then Some (Z.ldexp (float_of_Z (n / p)) k)
            else Some (PrimFloat.div (float_of_Z n) (float_of_Z (10 ^ (- k))))
          else Some (PrimFloat.mul (float_of_Z n) (float_of_Z (10 ^ k)))
      | _, _ => None
      end
  end.

(** *** JSON text *)

Fixpoint escape (s : string) : string :=
  match s with
  | EmptyString => EmptyString
  | String c s' =>
      if Ascii.eqb c dquote || Ascii.eqb c backslash
      then String backslash (String c (escape s'))
      else String c (escape s')
  end.

Definition quote (s : string) : string :=
  String dquote (escape s ++ String dquote EmptyString).

Fixpoint render (j : json) : string :=
  match j with
  | JNull => "null"
  | JBool true => "true"
  | JBool false => "false"
  | JNum lit => lit
  | JStr s => quote s
  | JArr items =>
      let fix go (l : list json) : string :=
        match l with
        | [] => ""
        | [x] => render x
        | x :: l' => render x ++ "," ++ go l'
        end in
      "[" ++ go items ++ "]"
  | JObj members =>
      let fix go (l : list (string * json)) : string :=
        match l with
        | [] => ""
        | [(k, v)] => quote k ++ ":" ++ render v
        | (k, v) :: l' => quote k ++ ":" ++ render v ++ "," ++ go l'
        end in
      "{" ++ go members ++ "}"
  end.

Definition is_space (c : ascii) : bool :=
  let n := nat_of_ascii c in
  (n =? 32)%nat || (n =? 9)%nat || (n =? 10)%nat || (n =? 13)%nat.

Fixpoint skip_ws (s : string) : string :=
  match s with
  | String c s' => if is_space c then skip_ws s' else s
  | EmptyString => s
  end.

(** The text after an opening quote, up to the closing one. *)
Fixpoint read_string (s : string) : option (string * string) :=
  match s with
  | EmptyString => None
  | String c s' =>
      if Ascii.eqb c dquote then Some (EmptyString, s')
      else if Ascii.eqb c backslash then
        match s' with
        | String d s'' =>
            match read_string s'' with
            | Some (str, rest) => Some (String d str, rest)
            | None => None
            end
        | EmptyString => None
        end
      else
        match read_string s' with
        | Some (str, rest) => Some (String c str, rest)
        | None => None
        end
  end.

Definition is_num_char (c : ascii) : bool :=
  let n := nat_of_ascii c in
  ((48 <=? n)%nat && (n <=? 57)%nat)
  || Ascii.eqb c "-"%char || Ascii.eqb c "+"%char || Ascii.eqb c "."%char
  || Ascii.eqb c "e"%char || Ascii.eqb c "E"%char.

Fixpoint read_number (s : string) : string * string :=
  match s with
  | String c s' =>
      if is_num_char c then let (l, r) := read_number s' in (String c l, r)
      else (EmptyString, s)
  | EmptyString => (EmptyString, s)
  end.

Definition expect (word : string) (j : json) (s : string) : option (json * string) :=
  if String.prefix word s
  then Some (j, String.substring (String.length word)
                                 (String.length s - String.length word) s)
  else None.

(** Items of an array after its opening bracket. *)
Fixpoint read_items (value : string -> option (json * string)) (fuel : nat)
  (s : string) : option (list json * string) :=
  match fuel with
  | O => None
  | S fuel' =>
      match value s with
      | None => None
      | Some (x, rest) =>
          match skip_ws rest with
          | String c rest' =>
              if Ascii.eqb c ","%char then
                match read_items value fuel' rest' with
                | Some (l, r) => Some (x :: l, r)
                | None => None
                end
              else if Ascii.eqb c "]"%char then Some ([x], rest')
              else None
          | EmptyString => None
          end
      end
  end.

(** Members of an object after its opening brace. *)
Fixpoint read_members (value : string -> option (json * string)) (fuel : nat)
  (s : string) : option (list (string * json) * string) :=
  match fuel with
  | O => None
  | S fuel' =>
      match skip_ws s with
      | String q s1 =>
          if Ascii.eqb q dquote then
            match read_string s1 with
            | None => None
            | Some (k, s2) =>
                match skip_ws s2 with
                | String colon s3 =>
                    if Ascii.eqb colon ":"%char then
                      match value s3 with
                      | None => None
                      | Some (v, s4) =>
                          match skip_ws s4 with
                          | String c s5 =>
                              if Ascii.eqb c ","%char then
                                match read_members value fuel' s5 with
                                | Some (l, r) => Some ((k, v) :: l, r)
                                | None => None
                                end
                              else if Ascii.eqb c "}"%char then Some ([(k, v)], s5)
                              else None
                          | EmptyString => None
                          end
                      end
                    else None
                | EmptyString => None
                end
            end
          else None
      | EmptyString => None
      end
  end.

Fixpoint read_value (fuel : nat) (s : string) : option (json * string) :=
  match fuel with
  | O => None
  | S fuel' =>
      match skip_ws s with
      | EmptyString => None
      | String c rest =>
          if Ascii.eqb c dquote then
            match read_string rest with
            | Some (str, r) => Some (JStr str, r)
            | None => None
            end
          else if Ascii.eqb c "["%char then
            match skip_ws rest with
            | String d r =>
                if Ascii.eqb d "]"%char then Some (JArr [], r)
                else match read_items (read_value fuel') fuel' rest with
                     | Some (l, r') => Some (JArr l, r')
                     | None => None
                     end
            | EmptyString => None
            end
          else if Ascii.eqb c "{"%char then
            match skip_ws rest with
            | String d r =>
                if Ascii.eqb d "}"%char then Some (JObj [], r)
                else match read_members (read_value fuel') fuel' rest with
                     | Some (l, r') => Some (JObj l, r')
                     | None => None
                     end
            | EmptyString => None
            end
          else if Ascii.eqb c "n"%char then expect "null" JNull (String c rest)
          else if Ascii.eqb c "t"%char then expect "true" (JBool true) (String c rest)
          else if Ascii.eqb c "f"%char then expect "false" (JBool false) (String c rest)
          else
            match read_number (String c rest) with
            | (EmptyString, _) => None
            | (lit, r) => Some (JNum lit, r)
            end
      end
  end.

(** The first value of a stream, as [Decoder.Decode] reads it. *)
Definition read (s : string) : option json :=
  option_map fst (read_value (S (String.length s)) s).

(** A whole text, as [Unmarshal] wants it: one value, then only space. *)
Definition parse (s : string) : option json :=
  match read_value (S (String.length s)) s with
  | Some (j, rest) =>
      match skip_ws rest with
      | EmptyString => Some j
      | _ => None
      end
  | None => None
  end.

Definition lower (c : ascii) : ascii :=
  let n := nat_of_ascii c in
  if (65 <=? n)%nat && (n <=? 90)%nat then ascii_of_nat (n + 32) else c.

Fixpoint equalFoldASCII (a b : string) : bool :=
  match a, b with
  | EmptyString, EmptyString => true
  | String x a', String y b' => Ascii.eqb (lower x) (lower y) && equalFoldASCII a' b'
  | _, _ => false
  end.

(** *** Clock *)

Definition two_digits (n : nat) : string :=
  (if (n <? 10)%nat then "0" else "") ++ decZ (Z.of_nat n).

(** Seconds since 2024-01-01T00:00:00Z, within that day. *)
Definition stamp (t : nat) : string :=
  "2024-01-01T" ++ two_digits ((t / 3600) mod 24) ++ ":"
  ++ two_digits ((t / 60) mod 60) ++ ":" ++ two_digits (t mod 60) ++ "Z".

(** *** Services *)

Record Scenario : Type := {
  broker_up : bool;
  queue_capacity : nat;
  db_writable : bool;
  db_readable : bool
}.

Definition accepted_count (cs : list KCall) : nat :=
  List.length (filter (fun c => match c with CProduce _ ok => ok | _ => false end) cs).

(** With the broker down nothing is delivered: every accepted message stays
    in the queue, and [Produce] fails once the queue is full. *)
Definition sim_outstanding (sc : Scenario) (cs : list KCall) : nat :=
  if broker_up sc then O else accepted_count cs.

(** The random source replays a list of samples; a sample outside [0,1)
    is replaced by 0, and so is every sample after the list has run out. *)
Definition unit_sample (x : float) : float :=
  if PrimFloat.leb PrimFloat.zero x && PrimFloat.ltb x PrimFloat.one then x
  else PrimFloat.zero.

#[export] Instance runtime (sc : Scenario) : Runtime float := {
  RNG := list float;
  rand_Float64 := fun g =>
    match g with
    | x :: g' => (unit_sample x, g')
    | [] => (PrimFloat.zero, [])
    end;
  rand_Intn := fun n g => (O, g);
  Clock := nat;
  time_Now := fun t => (stamp t, t);
  time_Sleep := fun t => (t + 5)%nat;
  formatFloat := format_binary64;
  parseFloat := parse_binary64;
  json_render := render;
  json_parse := parse;
  json_read := read;
  equalFold := equalFoldASCII;
  kafka_accepts := fun cs _ => (sim_outstanding sc cs <? queue_capacity sc)%nat;
  kafka_outstanding := fun _ cs => sim_outstanding sc cs;
  db_Exec_fails := fun _ _ => negb (db_writable sc);
  db_Query_fails := fun _ => negb (db_readable sc)
}.

Definition healthy : Scenario :=
  {| broker_up := true; queue_capacity := 1000; db_writable := true;
     db_readable := true |}.

Definition broker_down : Scenario :=
  {| broker_up := false; queue_capacity := 1000; db_writable := true;
     db_readable := true |}.

Definition disk_full : Scenario :=
  {| broker_up := true; queue_capacity := 1000; db_writable := false;
     db_readable := true |}.





End Sim.


(** ** Sample inputs *)

Module Samples.

Import Sim.

(** A producer about to start, with the samples the random source will
    replay. *)
Definition producer (sc : Scenario) (samples : list float)
  : @PState float (runtime sc) :=
  @Build_PState float (runtime sc) samples O [] [].


(** Nine samples, enough for one tick of three users. *)
Definition nine : list float :=
  [0x1p-1; 0x1p-2; 0x1.8p-1; 0x1p-3; 0x1.cp-1; 0x1p-1; 0x1p-4; 0x1.4p-1; 0x1p-1]%float.


Definition event (user stamp_ : string) (la lo : Z) : CoordinateEvent float :=
  {| UserID := user; SessionID := "s1"; EvLat := float_of_Z la;
     EvLon := float_of_Z lo; Timestamp := stamp_ |}.

(** [u1] at (10, 20) on 2024-01-01T00:00:00Z. *)
Definition event1 : CoordinateEvent float := event "u1" (stamp 0) 10 20.
Definition event2 : CoordinateEvent float := event "u1" (stamp 5) 11 21.
Definition event3 : CoordinateEvent float := event "u2" (stamp 3) 50 60.

Definition payload (e : CoordinateEvent float) : string :=
  render (@CoordinateEvent_doc float (runtime healthy) e).

(** A fresh sink, and a sink that has consumed two events of [u1] and then
    one of [u2]. *)
Definition sink0 : @CState float :=
  {| table := []; clog := []; running := true |}.

Definition sink3 : @CState float :=
  Eval vm_compute in
    @consumeLoop float binary64 (runtime healthy)
      [ Poll (Some (KMessage (payload event1)));
        Poll None;
        Poll (Some (KMessage (payload event2)));
        Poll (Some (KMessage (payload event3))) ]
      sink0.


Definition get (q : list (string * string)) : Request :=
  {| Method := "GET"; Query := q; Body := "" |}.

(** A body without a timestamp. *)
Definition post_body : string :=
  render (JObj [ ("user_id", JStr "u1"); ("lat", JNum "10"); ("lon", JNum "20") ]).

Definition post : Request :=
  {| Method := "POST"; Query := []; Body := post_body |}.

(** What [post_body] decodes to, and the event published for it when the
    clock shows second 0. *)
Definition decoded_post : CoordinateEvent float :=
  {| UserID := "u1"; SessionID := ""; EvLat := float_of_Z 10;
     EvLon := float_of_Z 20; Timestamp := "" |}.

Definition posted : CoordinateEvent float :=
  {| UserID := "u1"; SessionID := ""; EvLat := float_of_Z 10;
     EvLon := float_of_Z 20; Timestamp := stamp 0 |}.

End Samples.

(** ** Vocabulary of the statements *)

Section Vocabulary.

Context {F : Type} {ops : Float64Ops F} {rt : Runtime F}.

(** The messages handed to [Produce] on topic [coordinates], in call order,
    whatever the client answered. *)
Definition coordinateMessages (cs : list KCall) : list Message :=
  flat_map (fun c =>
              match c with
              | CProduce m _ => if String.eqb (Topic m) "coordinates" then [m] else []
              | CFlush _ _ => []
              end) cs.

(** The event [userStep] builds for a user in a given state. *)
Definition coordEventOf (user : User F) (st : PState) : CoordinateEvent F :=
  let (pos, _) := generateCoordinate (Base user) (rng st) in
  let (now, _) := time_Now (clock st) in
  {| UserID := ID user; SessionID := "s1"; EvLat := Lat pos; EvLon := Lon pos;
     Timestamp := now |}.

(** Every position a pass over the roster generates is a finite number. *)
Fixpoint passSerializable (roster : list (User F)) (st : PState) : bool :=
  match roster with
  | [] => true
  | u :: roster' =>
      let e := coordEventOf u st in
      ffinite (EvLat e) && ffinite (EvLon e)
      && passSerializable roster' (userStep u st)
  end.



(** The event the ingress handler publishes for a decoded body: an empty
    timestamp is replaced by the current time. *)
Definition defaulted (decoded : CoordinateEvent F) (c : Clock) : CoordinateEvent F :=
  if String.eqb (Timestamp decoded) "" then
    {| UserID := UserID decoded; SessionID := SessionID decoded;
       EvLat := EvLat decoded; EvLon := EvLon decoded;
       Timestamp := fst (time_Now c) |}
  else decoded.

(** The row holds the five fields of the event. *)
Definition stores (row : Row F) (e : CoordinateEvent F) : Prop :=
  user_id row = UserID e /\ session_id row = Some (SessionID e) /\
  lat row = EvLat e /\ lon row = EvLon e /\ timestamp row = Timestamp e.

(** One tick: a pass over [users], then the pause. *)
Definition tick (st : PState) : PState := sleep5s (rosterPass users st).

(** The events a result set scans into. *)
Definition scanned (rows : list (Row F)) : list (CoordinateEvent F) :=
  flat_map (fun r => match rows_Scan r with Some e => [e] | None => [] end) rows.

(** [a] may come before [b] in a most-recent-first listing. *)
Definition newer_or_same (a b : CoordinateEvent F) : Prop :=
  String.leb (Timestamp b) (Timestamp a) = true.

(** Row [a] may come before row [b] under [ORDER BY timestamp DESC]. *)
Definition before (a b : Row F) : Prop :=
  String.leb (timestamp b) (timestamp a) = true.

(** The rows the statement built for a request selects from a table. *)
Definition selected (r : Request) (t : list (Row F)) : list (Row F) :=
  let q := buildQuery (Query_Get (Query r) "user_id")
                      (limitOf (Query_Get (Query r) "limit")) in
  firstn (Z.to_nat (limit_arg q)) (order_by_timestamp_desc (filter (matches q) t)).

(** A query string without the given parameter. *)
Definition dropParam (key : string) (q : list (string * string))
  : list (string * string) :=
  filter (fun kv => negb (String.eqb (fst kv) key)) q.

End Vocabulary.

(** The integer a string denotes in decimal: an optional sign and one or
    more digits, of any length. *)
Definition decimalValue (s : string) : option Z :=
  let (neg, body) := splitSign s in
  match body with
  | EmptyString => None
  | _ =>
      match digitsValue body 0 with
      | Some v => Some (if neg then (- v)%Z else v)
      | None => None
      end
  end.

Definition denotesPositive (s : string) : Prop :=
  exists n, decimalValue s = Some n /\ (0 < n)%Z.

(** ** More of the programs *)

From Stdlib Require DecimalPos DecimalN.

(** What the channel [producer.Events()] hands to [deliveryReport]: the
    report for a message (with the delivery error, if any), a client error,
    or anything else. *)
Inductive DeliveryEvent : Type :=
| DMessage (topic : string) (partition offset : Z) (err : option string)
| DError (err : string)
| DOther (text : string).

Section Reports.

Context {F : Type} {ops : Float64Ops F} {rt : Runtime F}.

(** The body of the [switch] in [deliveryReport] (producer/main.go:74-86):
    one log line per event. *)
Definition reportStep (e : DeliveryEvent) (st : PState) : PState :=
  match e with
  | DMessage _ _ _ (Some _) => plogf "Delivery failed for record" st
  | DMessage _ _ _ None => plogf "Message produced" st
  | DError _ => plogf "Kafka error" st
  | DOther _ => plogf "Ignored event" st
  end.

(** [deliveryReport]: the [for e := range producer.Events()] loop, over the
    events delivered so far. *)
Definition deliveryReport (events : list DeliveryEvent) (st : PState) : PState :=
  fold_left (fun s e => reportStep e s) events st.

End Reports.

(** *** The MongoDB setup (unnamed/part_003) *)

Module Mongo.

(** The value of an index key: [1], ["text"] or ["2dsphere"]. *)
Inductive KeyKind : Type := Ascending | Text | Sphere2d.

Record IndexModel : Type := {
  Keys : list (string * KeyKind);
  Unique : bool
}.

(** A collection: its name, the validator it was created with, and its
    indexes.  A [bson.M] document is written as a JSON object. *)
Record Collection : Type := {
  collName : string;
  validator : json;
  indexes : list IndexModel
}.

(** The database and the log. *)
Record State : Type := {
  colls : list Collection;
  mlog : list string
}.

(** The driver: which of the three calls a setup function makes fail. *)
Class Driver : Type := {
  ListCollectionNames_fails : list Collection -> bool;
  CreateCollection_fails : list Collection -> string -> bool;
  CreateMany_fails : list Collection -> string -> bool
}.

Definition field (name kind description : string) : string * json :=
  (name, JObj [ ("bsonType", JStr kind); ("description", JStr description) ]).

Definition stringArray (name description : string) : string * json :=
  (name, JObj [ ("bsonType", JStr "array"); ("description", JStr description);
                ("items", JObj [ ("bsonType", JStr "string") ]) ]).

Definition schema (required : list string) (properties : list (string * json)) : json :=
  JObj [ ("$jsonSchema",
          JObj [ ("bsonType", JStr "object");
                 ("required", JArr (map JStr required));
                 ("properties", JObj properties) ]) ].

Definition coordinatesValidator : json :=
  schema ["user_id"; "latitude"; "longitude"; "timestamp"]
    [ field "user_id" "string" "ID of the user who generated this coordinate";
      field "latitude" "double" "Latitude coordinate";
      field "longitude" "double" "Longitude coordinate";
      field "altitude" "double" "Altitude in meters (optional)";
      field "accuracy" "double" "Accuracy of the coordinates in meters (optional)";
      field "speed" "double" "Speed in meters per second (optional)";
      field "timestamp" "date" "Time when the coordinate was recorded";
      field "activity_type" "string"
            "Type of activity (e.g., running, cycling, walking)" ].

Definition coordinatesIndexes : list IndexModel :=
  [ {| Keys := [("user_id", Ascending)]; Unique := false |};
    {| Keys := [("timestamp", Ascending)]; Unique := false |};
    {| Keys := [("user_id", Ascending); ("timestamp", Ascending)]; Unique := false |};
    {| Keys := [("location", Sphere2d)]; Unique := false |} ].

Definition locationsValidator : json :=
  schema ["name"; "coordinates"; "created_at"]
    [ field "name" "string" "Name of the location";
      field "description" "string" "Description of the location";
      ("coordinates",
       JObj [ ("bsonType", JStr "object");
              ("required", JArr [JStr "latitude"; JStr "longitude"]);
              ("properties",
               JObj [ field "latitude" "double" "Latitude coordinate";
                      field "longitude" "double" "Longitude coordinate" ]) ]);
      field "address" "string" "Physical address of the location";
      field "category" "string"
            "Category of the location (e.g., restaurant, park, museum)";
      stringArray "tags" "Tags associated with the location";
      ("rating",
       JObj [ ("bsonType", JStr "double"); ("minimum", JNum "0"); ("maximum", JNum "5");
              ("description", JStr "Rating of the location (0-5)") ]);
      stringArray "photos" "URLs to photos of the location";
      field "created_at" "date" "Date when the location was created";
      field "updated_at" "date" "Date when the location was last updated" ].

Definition locationsIndexes : list IndexModel :=
  [ {| Keys := [("name", Text); ("description", Text)]; Unique := false |};
    {| Keys := [("category", Ascending)]; Unique := false |};
    {| Keys := [("location", Sphere2d)]; Unique := false |} ].

Definition usersValidator : json :=
  schema ["username"; "email"; "created_at"]
    [ field "username" "string" "Username must be a string and is required";
      ("email",
       JObj [ ("bsonType", JStr "string");
              ("pattern", JStr "^[a-zA-Z0-9._%+-]+@[a-zA-Z0-9.-]+\.[a-zA-Z]{2,}$");
              ("description",
               JStr "Email must be a valid email address and is required") ]);
      field "password_hash" "string" "Hashed password for the user";
      field "full_name" "string" "Full name of the user";
      field "profile_pic" "string" "URL to profile picture";
      field "bio" "string" "User biography";
      field "preferences" "object" "User preferences";
      stringArray "saved_locations" "Array of saved location IDs";
      field "created_at" "date" "Date when the user was created";
      field "updated_at" "date" "Date when the user was last updated";
      field "last_login" "date" "Date of the user's last login" ].

Definition usersIndexes : list IndexModel :=
  [ {| Keys := [("username", Ascending)]; Unique := true |};
    {| Keys := [("email", Ascending)]; Unique := true |} ].

Section Setup.

Context {drv : Driver}.

Definition mlogf (line : string) (st : State) : State :=
  {| colls := colls st; mlog := mlog st ++ [line] |}.

(** The three setup functions have the same body but for the name, the
    validator and the indexes: list the collections and stop if one has the
    name; create the collection with its validator; create its indexes.
    The result is the error returned, if any, and the state left. *)
Definition setupCollection (collectionName : string) (v : json) (ixs : list IndexModel)
  (st : State) : option string * State :=
  if ListCollectionNames_fails (colls st) then (Some "ListCollectionNames", st)
  else if existsb (fun coll => String.eqb coll collectionName) (map collName (colls st))
  then (None, mlogf "Collection already exists" st)
  else if CreateCollection_fails (colls st) collectionName
  then (Some "CreateCollection", st)
  else
    let created := colls st ++ [ {| collName := collectionName; validator := v;
                                    indexes := [] |} ] in
    if CreateMany_fails created collectionName
    then (Some "CreateMany", {| colls := created; mlog := mlog st |})
    else (None,
          mlogf "Collection created successfully with indexes"
                {| colls := colls st ++ [ {| collName := collectionName; validator := v;
                                             indexes := ixs |} ];
                   mlog := mlog st |}).

Definition SetupCoordinatesCollection : State -> option string * State :=
  setupCollection "coordinates" coordinatesValidator coordinatesIndexes.

Definition SetupLocationsCollection : State -> option string * State :=
  setupCollection "locations" locationsValidator locationsIndexes.

Definition SetupUsersCollection : State -> option string * State :=
  setupCollection "users" usersValidator usersIndexes.

(** The three functions with the names of their collections. *)
Definition setups : list (string * (State -> option string * State)) :=
  [ ("coordinates", SetupCoordinatesCollection);
    ("locations", SetupLocationsCollection);
    ("users", SetupUsersCollection) ].

End Setup.

(** A driver that fails where told. *)
Definition driver (listing creating indexing : bool) : Driver :=
  {| ListCollectionNames_fails := fun _ => negb listing;
     CreateCollection_fails := fun _ _ => negb creating;
     CreateMany_fails := fun _ _ => negb indexing |}.

Definition empty : State := {| colls := []; mlog := [] |}.

End Mongo.

(** *** More vocabulary *)

Section Vocabulary2.

Context {F : Type} {ops : Float64Ops F} {rt : Runtime F}.

(** The messages handed to [Produce] on topic [locations]. *)
Definition locationMessages (cs : list KCall) : list Message :=
  flat_map (fun c =>
              match c with
              | CProduce m _ => if String.eqb (Topic m) "locations" then [m] else []
              | CFlush _ _ => []
              end) cs.

(** The timeouts of the [Flush] calls. *)
Definition flushTimeouts (cs : list KCall) : list Z :=
  flat_map (fun c => match c with CFlush t _ => [t] | CProduce _ _ => [] end) cs.

(** Every location message among [cs] comes with a coordinate message
    among [cs] for the same roster user, and its event repeats that event's
    user, session, position and timestamp. *)
Definition echoes (roster : list (User F)) (cs : list KCall) : Prop :=
  forall m ok,
    In (CProduce m ok) cs -> Topic m = "locations" ->
    exists u ce le mc okc,
      In u roster /\ In (CProduce mc okc) cs /\ Topic mc = "coordinates" /\
      Key mc = ID u /\ Key m = ID u /\
      json_Marshal_CoordinateEvent ce = Some (Value mc) /\
      json_Marshal_LocationEvent le = Some (Value m) /\
      LocUserID le = UserID ce /\ LocSessionID le = SessionID ce /\
      LocLat le = EvLat ce /\ LocLon le = EvLon ce /\
      LocTimestamp le = Timestamp ce.


(** Every call among [cs] is a [Produce] on one of the two topics under the
    id of a roster user, or a [Flush(0)]. *)
Definition withinRoster (roster : list (User F)) (cs : list KCall) : Prop :=
  Forall (fun c =>
            match c with
            | CProduce m _ =>
                (Topic m = "coordinates" \/ Topic m = "locations") /\
                In (Key m) (map ID roster)
            | CFlush t _ => t = 0%Z
            end) cs.

(** Every position generated in [n] successive ticks is finite. *)
Fixpoint ticksSerializable (n : nat) (st : PState) : bool :=
  match n with
  | O => true
  | S n' => passSerializable users st && ticksSerializable n' (tick st)
  end.

(** Two producer states that differ at most in their logs. *)
Definition sameButLog (a b : PState) : Prop :=
  rng a = rng b /\ clock a = clock b /\ calls a = calls b.

(** A row [rows.Scan] can read. *)
Definition readable (r : Row F) : Prop := session_id r <> None.

(** The number of messages among the inputs of the consume loop. *)
Definition messageCount (inputs : list LoopInput) : nat :=
  List.length (filter (fun i => match i with Poll (Some (KMessage _)) => true | _ => false end)
                      inputs).

(** The statement a request builds. *)
Definition queryOf (r : Request) : SelectQuery :=
  buildQuery (Query_Get (Query r) "user_id") (limitOf (Query_Get (Query r) "limit")).

(** The answer of the query endpoint that lists the given events. *)
Definition listing (events : list (CoordinateEvent F)) : Response :=
  {| Status := 200;
     Headers := corsHeaders ++ [("Content-Type", "application/json")];
     RespBody := match json_Marshal_events (Some events) with
                 | Some text => (text ++ newline)%string
                 | None => ""
                 end |}.

End Vocabulary2.

(** The decimal digits of a natural number, most significant first and
    without sign or leading zeros, as the standard library prints them;
    and the number a digit sequence stands for after the digits read so
    far stood for [acc]. *)
Definition decimalText (n : Z) : string :=
  NilEmpty.string_of_uint (N.to_uint (Z.to_N n)).

Fixpoint uintValue (d : Decimal.uint) (acc : Z) : Z :=
  match d with
  | Decimal.Nil => acc
  | Decimal.D0 d' => uintValue d' (acc * 10)
  | Decimal.D1 d' => uintValue d' (acc * 10 + 1)
  | Decimal.D2 d' => uintValue d' (acc * 10 + 2)
  | Decimal.D3 d' => uintValue d' (acc * 10 + 3)
  | Decimal.D4 d' => uintValue d' (acc * 10 + 4)
  | Decimal.D5 d' => uintValue d' (acc * 10 + 5)
  | Decimal.D6 d' => uintValue d' (acc * 10 + 6)
  | Decimal.D7 d' => uintValue d' (acc * 10 + 7)
  | Decimal.D8 d' => uintValue d' (acc * 10 + 8)
  | Decimal.D9 d' => uintValue d' (acc * 10 + 9)
  end%Z.

(** ** The generator *)

Section ProducerFacts.

Context {F : Type} {ops : Float64Ops F} {rt : Runtime F}.

Lemma coordinateMessages_app (a b : list KCall) :
  coordinateMessages (a ++ b) = coordinateMessages a ++ coordinateMessages b.
Proof. unfold coordinateMessages. apply flat_map_app. Qed.

Lemma plogf_calls (line : string) (st : PState) : calls (plogf line st) = calls st.
Proof. reflexivity. Qed.

Lemma sleep5s_calls (st : PState) : calls (sleep5s st) = calls st.
Proof. reflexivity. Qed.

(** What one user's turn adds to the client's call list: the coordinate
    [Produce] when the event serialises, then calls that are not coordinate
    messages. *)
Lemma userStep_calls (u : User F) (st : PState) :
  exists rest,
    coordinateMessages rest = [] /\
    calls (userStep u st) =
      calls st
      ++ match json_Marshal_CoordinateEvent (coordEventOf u st) with
         | Some d =>
             let m := {| Topic := "coordinates"; Key := ID u; Value := d |} in
             [CProduce m (kafka_accepts (calls st) m)]
         | None => []
         end
      ++ rest.
Proof.
  unfold userStep, coordEventOf.
  destruct (generateCoordinate (Base u) (rng st)) as [pos g1].
  destruct (time_Now (clock st)) as [now c1].
  destruct (json_Marshal_CoordinateEvent _) as [d|]; cbn.
  2: { exists []. split; [reflexivity | now rewrite app_nil_r]. }
  destruct (kafka_accepts (calls st) _) eqn:Hok; cbn;
    destruct (rand_Float64 _) as [chance g2]; cbn;
    destruct (fltb chance _); cbn;
    try destruct (rand_Intn _ _) as [k g3]; cbn;
    try destruct (json_Marshal_LocationEvent _) as [ld|]; cbn;
    try destruct (kafka_accepts (calls st ++ _) _); cbn;
    repeat rewrite <- app_assoc; cbn;
    eexists; (split; [| reflexivity]); reflexivity.
Qed.

Lemma marshal_finite (e : CoordinateEvent F) :
  ffinite (EvLat e) && ffinite (EvLon e) = true ->
  json_Marshal_CoordinateEvent e = Some (json_render (CoordinateEvent_doc e)).
Proof. intros H. unfold json_Marshal_CoordinateEvent. now rewrite H. Qed.

Lemma coordEventOf_UserID (u : User F) (st : PState) :
  UserID (coordEventOf u st) = ID u /\ SessionID (coordEventOf u st) = "s1".
Proof.
  unfold coordEventOf.
  destruct (generateCoordinate _ _); destruct (time_Now _); now split.
Qed.

(** A pass emits, for the users of the roster in order, one coordinate
    message each, provided every position serialises. *)
Lemma rosterPass_coordinates (roster : list (User F)) :
  forall st,
    passSerializable roster st = true ->
    exists new,
      calls (rosterPass roster st) = calls st ++ new /\
      Forall2 (fun u m =>
                 Topic m = "coordinates" /\ Key m = ID u /\
                 exists e, json_Marshal_CoordinateEvent e = Some (Value m) /\
                           UserID e = ID u /\ SessionID e = "s1")
              roster (coordinateMessages new).
Proof.
  induction roster as [|u roster IH]; intros st Hser.
  - exists []. split; [now rewrite app_nil_r | constructor].
  - cbn [passSerializable] in Hser.
    apply andb_prop in Hser as [Hfin Hrest].
    destruct (userStep_calls u st) as [rest [Hnone Hcalls]].
    rewrite (marshal_finite _ Hfin) in Hcalls.
    destruct (IH _ Hrest) as [new [Hnew Hall]].
    cbn [rosterPass fold_left]. fold (rosterPass roster (userStep u st)).
    rewrite Hnew, Hcalls. eexists. split.
    + rewrite <- !app_assoc. reflexivity.
    + rewrite !coordinateMessages_app, Hnone. cbn.
      constructor; [|exact Hall].
      destruct (coordEventOf_UserID u st) as [Hid Hsess].
      repeat split. exists (coordEventOf u st).
      now rewrite (marshal_finite _ Hfin).
Qed.

Lemma Forall2_keys (us : list (User F)) (ms : list Message) :
  Forall2 (fun u m => Key m = ID u) us ms -> map Key ms = map ID us.
Proof.
  induction 1 as [|u m us' ms' Hk _ IH]; cbn; [reflexivity|].
  now rewrite Hk, IH.
Qed.

(** C6.  In a completed tick the generator calls [Produce] on topic
    [coordinates] exactly once per roster user, in roster order: the
    coordinate messages of the pass line up one to one with [users], each
    keyed by its user and carrying that user's event.  The only way the
    source skips a user is a failing [json.Marshal], which needs a
    coordinate that is NaN or infinite; the hypothesis excludes that. *)
Theorem tick_emits_one_coordinate_per_user (st : PState) :
  passSerializable users st = true ->
  exists new,
    calls (tick st) = calls st ++ new /\
    List.length (coordinateMessages new) = List.length users /\
    map Key (coordinateMessages new) = map ID users /\
    Forall2 (fun u m =>
               Topic m = "coordinates" /\ Key m = ID u /\
               exists e, json_Marshal_CoordinateEvent e = Some (Value m) /\
                         UserID e = ID u /\ SessionID e = "s1")
            users (coordinateMessages new).
Proof.
  intros Hser.
  destruct (rosterPass_coordinates users st Hser) as [new [Hnew Hall]].
  exists new. unfold tick. rewrite sleep5s_calls. split; [exact Hnew|].
  split; [symmetry; eapply Forall2_length; exact Hall|].
  split; [|exact Hall].
  eapply Forall2_keys. eapply Forall2_impl; [|exact Hall].
  cbv beta. intros u m [_ [Hk _]]. exact Hk.
Qed.

Lemma tickLoop_unroll (n : nat) (rest : list bool) (st : PState) :
  tickLoop (repeat false n ++ true :: rest) st =
  (plogf "Stopping GPS event generation" (Nat.iter n tick st), true).
Proof.
  revert st. induction n as [|n IH]; intros st.
  - reflexivity.
  - cbn [repeat app tickLoop]. fold (tick st). rewrite IH.
    now rewrite Nat.iter_succ_r.
Qed.

Lemma tickLoop_whole_passes (done : list bool) :
  forall st, exists k,
    (k <= List.length done)%nat /\
    calls (fst (tickLoop done st)) = calls (Nat.iter k tick st) /\
    snd (tickLoop done st) = existsb (fun b => b) done.
Proof.
  induction done as [|b done IH]; intros st.
  - exists O. repeat split; auto.
  - destruct b.
    + exists O. cbn. repeat split. lia.
    + cbn [tickLoop]. fold (tick st).
      destruct (IH (tick st)) as [k [Hk [Hc Hs]]].
      exists (S k). rewrite Nat.iter_succ_r. cbn. repeat split; auto. lia.
Qed.

(** C7.  The stop signal is looked at only where a pass over the roster
    begins.  When it is found after [n] arrivals at the [select], the loop
    has run exactly [n] ticks, each a pass over the whole roster, logs the
    stop and returns; whatever the channel would have shown later plays no
    part, and no call on the Kafka client follows.  At any point the calls
    made so far are those of a whole number of ticks. *)
Theorem stop_is_checked_between_passes (st : PState) :
  (forall n rest,
     generateEvents (repeat false n ++ true :: rest) st =
     (plogf "Stopping GPS event generation"
            (Nat.iter n tick (plogf "Starting GPS event generation" st)), true)) /\
  (forall done, exists k,
     (k <= List.length done)%nat /\
     calls (fst (generateEvents done st)) =
       calls (Nat.iter k tick (plogf "Starting GPS event generation" st)) /\
     snd (generateEvents done st) = existsb (fun b => b) done).
Proof.
  split.
  - intros n rest. unfold generateEvents. apply tickLoop_unroll.
  - intros done. unfold generateEvents.
    destruct (tickLoop_whole_passes done (plogf "Starting GPS event generation" st))
      as [k [Hk [Hc Hs]]].
    exists k. repeat split; auto.
Qed.






End ProducerFacts.

(** *** The bound on the simulated walk *)

Section ExactWalk.

Context {rt : Runtime Q}.



End ExactWalk.

(** ** Ingress and the consume loop *)

Section SinkFacts.

Context {F : Type} {ops : Float64Ops F} {rt : Runtime F}.

(** C3, as the handler has it.  A method other than POST gets 405 and a
    body that does not decode gets 400, both without touching the state; a
    failing [json.Marshal] gets 500 with nothing handed to the client, and
    a [Produce] that returns an error gets 500.  Otherwise the event, its
    timestamp set to the current time when empty, is handed to the client
    under the user's key, the handler waits in [Flush(1000)] and answers
    200 with body ok whatever [Flush] reports: the answer tells that the
    client accepted the message, not that delivery was confirmed. *)
Theorem produce_endpoint_responses (r : Request) (st : PState) :
  let resp := fst (produceHandler r st) in
  let st' := snd (produceHandler r st) in
  (Method r <> "POST" -> Status resp = 405%Z /\ st' = st) /\
  (Method r = "POST" -> json_Decode (Body r) = None ->
   Status resp = 400%Z /\ st' = st) /\
  (Method r = "POST" ->
   forall decoded, json_Decode (Body r) = Some decoded ->
     let event := defaulted decoded (clock st) in
     match json_Marshal_CoordinateEvent event with
     | None => Status resp = 500%Z /\ calls st' = calls st
     | Some data =>
         let m := {| Topic := "coordinates"; Key := UserID event; Value := data |} in
         if kafka_accepts (calls st) m then
           resp = {| Status := 200; Headers := []; RespBody := "ok" |} /\
           calls st' =
             calls st
             ++ [CProduce m true;
                 CFlush 1000 (kafka_outstanding 1000 (calls st ++ [CProduce m true]))]
         else
           Status resp = 500%Z /\ calls st' = calls st ++ [CProduce m false]
     end).
Proof.
  cbv zeta. unfold produceHandler. split; [|split].
  - intros Hm.
    destruct (String.eqb_spec (Method r) "POST"); [contradiction | now split].
  - intros Hm Hd. rewrite Hm, Hd. now split.
  - intros Hm decoded Hd. rewrite Hm, Hd.
    change (String.eqb "POST" "POST") with true. cbn [negb]. unfold defaulted.
    destruct (String.eqb (Timestamp decoded) "").
    + destruct (time_Now (clock st)) as [now c1]. cbn [fst].
      destruct (json_Marshal_CoordinateEvent _) as [data|]; [|now split].
      unfold Produce. cbn.
      destruct (kafka_accepts (calls st) _); cbn; split; try reflexivity.
      now rewrite <- app_assoc.
    + destruct (json_Marshal_CoordinateEvent _) as [data|]; [|now split].
      unfold Produce. cbn.
      destruct (kafka_accepts (calls st) _); cbn; split; try reflexivity.
      now rewrite <- app_assoc.
Qed.

(** Decoding the producer's document gives the event back when the
    numbers survive their text form. *)
Lemma decode_doc (e : CoordinateEvent F) :
  parseFloat (formatFloat (EvLat e)) = Some (EvLat e) ->
  parseFloat (formatFloat (EvLon e)) = Some (EvLon e) ->
  decodeEvent (CoordinateEvent_doc e) = Some e.
Proof.
  intros Hlat Hlon. destruct e as [u s la lo t]. cbn in *.
  rewrite Hlat. cbn. rewrite Hlon. reflexivity.
Qed.

(** C2.  An event with finite coordinates whose text form reads back as
    written (the JSON text layer returns the document, [strconv] returns
    the two numbers) is stored, once published and consumed, as one new row
    with the same user, session, latitude, longitude and timestamp. *)
Theorem published_then_consumed_is_stored (e : CoordinateEvent F) (st : CState) :
  ffinite (EvLat e) && ffinite (EvLon e) = true ->
  json_parse (json_render (CoordinateEvent_doc e)) = Some (CoordinateEvent_doc e) ->
  parseFloat (formatFloat (EvLat e)) = Some (EvLat e) ->
  parseFloat (formatFloat (EvLon e)) = Some (EvLon e) ->
  db_Exec_fails (table st) e = false ->
  exists data row,
    json_Marshal_CoordinateEvent e = Some data /\
    table (consumeStep (Poll (Some (KMessage data))) st) = table st ++ [row] /\
    stores row e.
Proof.
  intros Hfin Htext Hlat Hlon Hdb.
  eexists. eexists. split; [apply marshal_finite; exact Hfin|].
  unfold consumeStep, json_Unmarshal. rewrite Htext, (decode_doc e Hlat Hlon).
  unfold stmt_Exec. rewrite Hdb. cbn. split; [reflexivity|].
  repeat split.
Qed.

(** C5.  A message met by the running consume loop is dealt with in one
    of three ways, and in each the loop goes on with the inputs that
    follow.  If it does not decode, the table is as before and the failure
    is logged.  If the INSERT fails, the table is as before, the failure is
    logged and the event is not tried again.  Otherwise the table has
    exactly one more row, holding the event. *)
Theorem consume_loop_handles_message (value : string) (rest : list LoopInput)
  (st : CState) :
  running st = true ->
  let st' := consumeStep (Poll (Some (KMessage value))) st in
  consumeLoop (Poll (Some (KMessage value)) :: rest) st = consumeLoop rest st' /\
  running st' = true /\
  match json_Unmarshal value with
  | None =>
      table st' = table st /\ clog st' = clog st ++ ["Error unmarshaling message"]
  | Some event =>
      if db_Exec_fails (table st) event then
        table st' = table st /\
        clog st' = clog st ++ ["Error inserting into database"]
      else
        exists row, table st' = table st ++ [row] /\ stores row event
  end.
Proof.
  intros Hrun. cbv zeta. split; [cbn [consumeLoop]; now rewrite Hrun|].
  unfold consumeStep, stmt_Exec.
  destruct (json_Unmarshal value) as [event|]; [|now cbn].
  destruct (db_Exec_fails (table st) event); cbn; [now split|].
  split; [exact Hrun|]. eexists. split; [reflexivity|]. repeat split.
Qed.

End SinkFacts.

(** ** The query endpoint *)

Lemma string_leb_trans (a b c : string) :
  String.leb a b = true -> String.leb b c = true -> String.leb a c = true.
Proof.
  unfold String.leb. revert b c.
  induction a as [|x a IH]; intros [|y b] [|z c]; cbn; try easy.
  unfold Ascii.compare.
  destruct (N.compare_spec (N_of_ascii x) (N_of_ascii y)) as [Hxy|Hxy|Hxy];
    destruct (N.compare_spec (N_of_ascii y) (N_of_ascii z)) as [Hyz|Hyz|Hyz];
    destruct (N.compare_spec (N_of_ascii x) (N_of_ascii z)) as [Hxz|Hxz|Hxz];
    try easy; try lia.
  apply IH.
Qed.

Lemma string_ltb_leb (a b : string) : String.ltb a b = true -> String.leb a b = true.
Proof. unfold String.ltb, String.leb. now destruct (String.compare a b). Qed.

Lemma string_nltb_leb (a b : string) : String.ltb a b = false -> String.leb b a = true.
Proof.
  unfold String.ltb, String.leb. rewrite (String.compare_antisym b a).
  now destruct (String.compare a b).
Qed.

Lemma Atoi_decimalValue (s : string) (n : Z) :
  Atoi s = Some n -> decimalValue s = Some n.
Proof.
  unfold Atoi, decimalValue. destruct (splitSign s) as [neg body].
  destruct body as [|c body]; [discriminate|].
  destruct (digitsValue (String c body) 0) as [v|]; [|discriminate].
  destruct (_ && _); [trivial | discriminate].
Qed.

Lemma decimalValue_Atoi (s : string) (n : Z) :
  decimalValue s = Some n ->
  Atoi s = if (- 2 ^ 63 <=? n)%Z && (n <=? 2 ^ 63 - 1)%Z then Some n else None.
Proof.
  unfold Atoi, decimalValue. destruct (splitSign s) as [neg body].
  destruct body as [|c body]; [discriminate|].
  destruct (digitsValue (String c body) 0) as [v|]; [|discriminate].
  now intros [= <-].
Qed.

Lemma limitOf_positive (s : string) : (0 < limitOf s)%Z.
Proof.
  unfold limitOf. destruct (negb _); [|lia].
  destruct (Atoi s) as [n|]; [|lia].
  destruct (0 <? n)%Z eqn:Hn; lia.
Qed.

(** A limit that denotes a positive integer caps the result at that
    integer, also when it is too large for [int] and 50 is used. *)
Lemma limitOf_le (s : string) (n : Z) :
  decimalValue s = Some n -> (0 < n)%Z -> (limitOf s <= n)%Z.
Proof.
  intros Hd Hn. unfold limitOf.
  destruct (String.eqb_spec s "") as [->|Hne]; [discriminate|]. cbn [negb].
  rewrite (decimalValue_Atoi s n Hd).
  destruct (_ && _) eqn:Hr.
  - destruct (0 <? n)%Z eqn:Hp; lia.
  - apply andb_false_iff in Hr as [Hr|Hr]; lia.
Qed.

Lemma limitOf_default (s : string) : ~ denotesPositive s -> limitOf s = 50%Z.
Proof.
  intros Hnot. unfold limitOf. destruct (negb _); [|reflexivity].
  destruct (Atoi s) as [n|] eqn:Ha; [|reflexivity].
  destruct (0 <? n)%Z eqn:Hn; [|reflexivity].
  exfalso. apply Hnot. exists n. split; [now apply Atoi_decimalValue | lia].
Qed.

Lemma Query_Get_absent (q : list (string * string)) (key : string) :
  (forall v, ~ In (key, v) q) -> Query_Get q key = "".
Proof.
  induction q as [|[k v] q IH]; intros Habs; cbn; [reflexivity|].
  destruct (String.eqb_spec k key) as [->|Hne].
  - exfalso. apply (Habs v). now left.
  - apply IH. intros v' Hin. apply (Habs v'). now right.
Qed.

Lemma Query_Get_dropParam_same (q : list (string * string)) (key : string) :
  Query_Get (dropParam key q) key = "".
Proof.
  apply Query_Get_absent. intros v Hin. unfold dropParam in Hin.
  apply filter_In in Hin as [_ Hin]. cbn in Hin.
  now rewrite String.eqb_refl in Hin.
Qed.

Lemma Query_Get_dropParam_other (q : list (string * string)) (key key' : string) :
  key <> key' -> Query_Get (dropParam key q) key' = Query_Get q key'.
Proof.
  intros Hne. unfold dropParam.
  induction q as [|[k v] q IH]; cbn; [reflexivity|].
  destruct (String.eqb_spec k key) as [->|Hk]; cbn.
  - destruct (String.eqb_spec key key'); [contradiction | exact IH].
  - now rewrite IH.
Qed.

Section QueryFacts.

Context {F : Type} {ops : Float64Ops F} {rt : Runtime F}.

Lemma insert_desc_In (r x : Row F) (l : list (Row F)) :
  In x (insert_desc r l) <-> x = r \/ In x l.
Proof.
  induction l as [|y l IH]; cbn.
  - intuition.
  - destruct (String.ltb (timestamp r) (timestamp y)); cbn; [rewrite IH|]; intuition.
Qed.

Lemma order_by_In (x : Row F) (l : list (Row F)) :
  In x (order_by_timestamp_desc l) <-> In x l.
Proof.
  induction l as [|y l IH]; cbn; [tauto|].
  rewrite insert_desc_In, IH. intuition.
Qed.

Lemma insert_desc_sorted (r : Row F) (l : list (Row F)) :
  StronglySorted before l -> StronglySorted before (insert_desc r l).
Proof.
  induction 1 as [|y l Hs IH Hy]; cbn.
  - constructor; [constructor | constructor].
  - destruct (String.ltb (timestamp r) (timestamp y)) eqn:Hlt.
    + constructor; [exact IH|].
      apply Forall_forall. intros x Hx. apply insert_desc_In in Hx as [->|Hx].
      * now apply string_ltb_leb.
      * rewrite Forall_forall in Hy. now apply Hy.
    + apply string_nltb_leb in Hlt.
      constructor; [now constructor|].
      constructor; [exact Hlt|].
      eapply Forall_impl; [|exact Hy]. intros x Hx. unfold before in *.
      eapply string_leb_trans; eassumption.
Qed.

Lemma order_by_sorted (l : list (Row F)) :
  StronglySorted before (order_by_timestamp_desc l).
Proof.
  induction l as [|r l IH]; cbn; [constructor | now apply insert_desc_sorted].
Qed.

Lemma firstn_In {A : Type} (x : A) (n : nat) (l : list A) :
  In x (firstn n l) -> In x l.
Proof.
  revert l. induction n as [|n IH]; intros [|y l]; cbn; try tauto.
  intros [->|H]; [now left | right; now apply IH].
Qed.

Lemma firstn_sorted {A : Type} (R : A -> A -> Prop) (n : nat) (l : list A) :
  StronglySorted R l -> StronglySorted R (firstn n l).
Proof.
  intros Hs. revert n. induction Hs as [|x l Hs IH Hx]; intros [|n]; cbn;
    try constructor.
  - apply IH.
  - apply Forall_forall. intros y Hy. rewrite Forall_forall in Hx.
    apply Hx. eapply firstn_In; eauto.
Qed.

Lemma rows_Scan_fields (r : Row F) (e : CoordinateEvent F) :
  rows_Scan r = Some e ->
  UserID e = user_id r /\ Timestamp e = timestamp r /\ stores r e.
Proof.
  unfold rows_Scan, stores. destruct (session_id r) as [s|]; [|discriminate].
  intros [= <-]. cbn. repeat split.
Qed.

Lemma scanned_In (e : CoordinateEvent F) (rows : list (Row F)) :
  In e (scanned rows) <-> exists r, In r rows /\ rows_Scan r = Some e.
Proof.
  unfold scanned. rewrite in_flat_map. split; intros [r [Hin H]]; exists r;
    (split; [exact Hin|]); destruct (rows_Scan r) as [e'|]; cbn in *.
  - destruct H as [->|[]]. reflexivity.
  - contradiction.
  - injection H as ->. now left.
  - discriminate.
Qed.

Lemma scanned_sorted (rows : list (Row F)) :
  StronglySorted before rows -> StronglySorted newer_or_same (scanned rows).
Proof.
  induction 1 as [|r rows Hs IH Hr]; cbn; [constructor|].
  destruct (rows_Scan r) as [e|] eqn:He; cbn; [|exact IH].
  constructor; [exact IH|].
  apply Forall_forall. intros e' He'.
  apply scanned_In in He' as [r' [Hin Hr']].
  rewrite Forall_forall in Hr. specialize (Hr r' Hin).
  apply rows_Scan_fields in He as [_ [Ht _]].
  apply rows_Scan_fields in Hr' as [_ [Ht' _]].
  unfold newer_or_same. now rewrite Ht, Ht'.
Qed.

Lemma scanned_length (rows : list (Row F)) :
  (List.length (scanned rows) <= List.length rows)%nat.
Proof.
  unfold scanned. induction rows as [|r rows IH]; cbn; [lia|].
  destruct (rows_Scan r); cbn; lia.
Qed.

(** The scan loop keeps the table and the [running] flag, and returns the
    scanned events after those it started with. *)
Lemma collect_spec (rows : list (Row F)) :
  forall acc st,
    fst (collect rows (Some acc) st) = Some (acc ++ scanned rows) /\
    table (snd (collect rows (Some acc) st)) = table st /\
    running (snd (collect rows (Some acc) st)) = running st.
Proof.
  induction rows as [|r rows IH]; intros acc st; cbn.
  - now rewrite app_nil_r.
  - destruct (rows_Scan r) as [e|]; cbn.
    + destruct (IH (acc ++ [e]) st) as [H1 H2].
      rewrite H1, <- app_assoc. now split.
    + destruct (IH acc (clogf "Error scanning row" st)) as [H1 H2].
      rewrite H1. now split.
Qed.

Lemma getEvents_ok (r : Request) (st : CState) :
  db_Query_fails (table st) = false ->
  fst (getEvents r st) =
    {| Status := 200;
       Headers := corsHeaders ++ [("Content-Type", "application/json")];
       RespBody :=
         match json_Marshal_events (Some (scanned (selected r (table st)))) with
         | Some text => text ++ newline
         | None => ""
         end |}.
Proof.
  intros Hok. unfold getEvents, db_Query. rewrite Hok.
  pose proof (limitOf_positive (Query_Get (Query r) "limit")) as Hpos.
  cbn [limit_arg buildQuery].
  destruct (limitOf (Query_Get (Query r) "limit") <? 0)%Z eqn:Hneg; [lia|].
  match goal with
  | |- context [collect ?rows (Some []) st] =>
      pose proof (collect_spec rows [] st) as [Hc _];
      destruct (collect rows (Some []) st) as [events st']
  end.
  cbn [fst] in Hc. subst events. cbn [app]. unfold selected. cbn [limit_arg buildQuery].
  now destruct (json_Marshal_events _).
Qed.

Lemma getEvents_table (r : Request) (st : CState) :
  table (snd (getEvents r st)) = table st.
Proof.
  unfold getEvents. destruct (db_Query _ _) as [rows|]; [|reflexivity].
  pose proof (collect_spec rows [] st) as [_ [Ht _]].
  destruct (collect rows (Some []) st) as [events st'].
  now destruct (json_Marshal_events events).
Qed.

Lemma selected_In (r : Request) (t : list (Row F)) (row : Row F) :
  In row (selected r t) ->
  In row t /\
  matches (buildQuery (Query_Get (Query r) "user_id")
                      (limitOf (Query_Get (Query r) "limit"))) row = true.
Proof.
  unfold selected. intros Hin. apply firstn_In in Hin.
  apply (proj1 (order_by_In _ _)) in Hin. now apply (proj1 (filter_In _ _ _)) in Hin.
Qed.

Lemma selected_length (r : Request) (t : list (Row F)) :
  (Z.of_nat (List.length (selected r t)) <= limitOf (Query_Get (Query r) "limit"))%Z.
Proof.
  unfold selected. cbn [limit_arg buildQuery].
  pose proof (limitOf_positive (Query_Get (Query r) "limit")).
  pose proof (firstn_le_length (Z.to_nat (limitOf (Query_Get (Query r) "limit")))
                (order_by_timestamp_desc
                   (filter (matches (buildQuery (Query_Get (Query r) "user_id")
                                       (limitOf (Query_Get (Query r) "limit")))) t))).
  cbn [limit_arg buildQuery] in *. lia.
Qed.

(** C4, with the filter as the handler applies it.  When the query runs,
    the answer is 200 with the JSON array of the returned events, and these
    events: are at most 50 when no [limit] is given, and at most [n] when
    [limit] denotes a positive integer [n]; all belong to the user named
    by [user_id] when that value is not empty (an empty value filters
    nothing, exactly as a missing one); are listed with timestamps in
    descending order; and each is a row of the table. *)
Theorem query_endpoint_result (r : Request) (st : CState) :
  db_Query_fails (table st) = false ->
  exists events,
    fst (getEvents r st) =
      {| Status := 200;
         Headers := corsHeaders ++ [("Content-Type", "application/json")];
         RespBody := match json_Marshal_events (Some events) with
                     | Some text => text ++ newline
                     | None => ""
                     end |} /\
    ((forall v, ~ In ("limit", v) (Query r)) -> (List.length events <= 50)%nat) /\
    (forall n, decimalValue (Query_Get (Query r) "limit") = Some n -> (0 < n)%Z ->
               (Z.of_nat (List.length events) <= n)%Z) /\
    (Query_Get (Query r) "user_id" <> "" ->
     Forall (fun e => UserID e = Query_Get (Query r) "user_id") events) /\
    StronglySorted newer_or_same events /\
    (forall e, In e events -> exists row, In row (table st) /\ stores row e).
Proof.
  intros Hok. exists (scanned (selected r (table st))).
  pose proof (scanned_length (selected r (table st))) as Hlen.
  pose proof (selected_length r (table st)) as Hsel.
  split; [now apply getEvents_ok|]. split; [|split; [|split; [|split]]].
  - intros Habs. rewrite (Query_Get_absent _ _ Habs) in Hsel.
    change (limitOf "") with 50%Z in Hsel. lia.
  - intros n Hd Hn. pose proof (limitOf_le _ _ Hd Hn). lia.
  - intros Hne. apply Forall_forall. intros e He.
    apply scanned_In in He as [row [Hin Hscan]].
    apply selected_In in Hin as [_ Hm].
    apply rows_Scan_fields in Hscan as [Hu _]. rewrite Hu.
    unfold matches, buildQuery in Hm. cbn in Hm.
    destruct (String.eqb_spec (Query_Get (Query r) "user_id") "") as [E|_];
      [contradiction|].
    cbn in Hm. now apply String.eqb_eq.
  - apply scanned_sorted. unfold selected. apply firstn_sorted, order_by_sorted.
  - intros e He. apply scanned_In in He as [row [Hin Hscan]].
    exists row. split; [now apply selected_In in Hin|].
    now apply rows_Scan_fields in Hscan.
Qed.


Lemma getEvents_response (r1 r2 : Request) (st1 st2 : CState) :
  table st1 = table st2 ->
  Query_Get (Query r1) "user_id" = Query_Get (Query r2) "user_id" ->
  Query_Get (Query r1) "limit" = Query_Get (Query r2) "limit" ->
  fst (getEvents r1 st1) = fst (getEvents r2 st2).
Proof.
  intros Ht Hu Hl. unfold getEvents. rewrite Ht, Hu, Hl.
  destruct (db_Query _ (table st2)) as [rows|]; [|reflexivity].
  pose proof (collect_spec rows [] st1) as [H1 _].
  pose proof (collect_spec rows [] st2) as [H2 _].
  destruct (collect rows (Some []) st1) as [ev1 s1].
  destruct (collect rows (Some []) st2) as [ev2 s2].
  cbn [fst] in H1, H2. subst ev1 ev2.
  now destruct (json_Marshal_events _).
Qed.

(** C9.  The answer of the query endpoint is a function of the table and
    of the two parameters [user_id] and [limit]; the handler leaves the
    table as it found it; so asking again, with nothing written in between,
    gives the same answer, rows in the same order. *)
Theorem query_is_repeatable (r1 r2 : Request) (st1 st2 : CState) :
  table st1 = table st2 ->
  Query_Get (Query r1) "user_id" = Query_Get (Query r2) "user_id" ->
  Query_Get (Query r1) "limit" = Query_Get (Query r2) "limit" ->
  fst (getEvents r1 st1) = fst (getEvents r2 st2) /\
  table (snd (getEvents r1 st1)) = table st1 /\
  fst (getEvents r1 (snd (getEvents r1 st1))) = fst (getEvents r1 st1).
Proof.
  intros Ht Hu Hl. split; [now apply getEvents_response|].
  split; [apply getEvents_table|].
  apply getEvents_response; auto using getEvents_table.
Qed.

(** C10.  A [limit] that does not denote a positive integer in decimal
    (an optional sign, then digits) is not an error: the limit used is 50
    and the handler does exactly what it does for the same request without
    any [limit]; in particular it answers 200 when the query runs. *)
Theorem invalid_limit_means_default (r : Request) (st : CState) :
  ~ denotesPositive (Query_Get (Query r) "limit") ->
  limitOf (Query_Get (Query r) "limit") = 50%Z /\
  getEvents r st =
    getEvents {| Method := Method r; Query := dropParam "limit" (Query r);
                 Body := Body r |} st /\
  (db_Query_fails (table st) = false -> Status (fst (getEvents r st)) = 200%Z).
Proof.
  intros Hnot. pose proof (limitOf_default _ Hnot) as Hdef.
  split; [exact Hdef|]. split.
  - unfold getEvents. cbn [Query].
    rewrite Query_Get_dropParam_same, Query_Get_dropParam_other by discriminate.
    rewrite Hdef. reflexivity.
  - intros Hok. now rewrite (getEvents_ok r st Hok).
Qed.

End QueryFacts.


(** ** Runs on the sample inputs *)

Import Sim Samples.

Local Abbreviation up := (runtime healthy).
Local Abbreviation down := (runtime broker_down).




Lemma published_then_consumed_witness :
  exists data row,
    @json_Marshal_CoordinateEvent float binary64 up event1 = Some data /\
    table (@consumeStep float binary64 up (Poll (Some (KMessage data))) sink0) =
      table sink0 ++ [row] /\
    stores row event1.
Proof.
  apply (@published_then_consumed_is_stored float binary64 up event1 sink0);
    vm_compute; reflexivity.
Defined.

(** C3 does not hold as stated.  With the broker unreachable, a well-formed
    POST is accepted by the client's queue, [Flush(1000)] comes back with
    one event still outstanding, and the caller is told 200 ok. *)
Lemma ok_without_confirmed_delivery :
  let run := @produceHandler float binary64 down post (producer broker_down []) in
  fst run = {| Status := 200; Headers := []; RespBody := "ok" |} /\
  calls (snd run) =
    [ CProduce {| Topic := "coordinates"; Key := "u1"; Value := payload posted |} true;
      CFlush 1000 1 ].
Proof.
  cbv zeta. split; vm_compute; reflexivity.
Qed.

Lemma produce_endpoint_witness :
  fst (@produceHandler float binary64 up post (producer healthy [])) =
    {| Status := 200; Headers := []; RespBody := "ok" |} /\
  calls (snd (@produceHandler float binary64 up post (producer healthy []))) =
    [ CProduce {| Topic := "coordinates"; Key := "u1"; Value := payload posted |} true;
      CFlush 1000 0 ].
Proof.
  destruct (@produce_endpoint_responses float binary64 up post (producer healthy []))
    as [_ [_ H]].
  assert (Hd : @json_Decode float binary64 up (Body post) = Some decoded_post)
    by (vm_compute; reflexivity).
  specialize (H eq_refl decoded_post Hd). cbv zeta in H.
  assert (Hm : @json_Marshal_CoordinateEvent float binary64 up
                 (defaulted decoded_post (clock (producer healthy []))) =
               Some (payload posted))
    by (vm_compute; reflexivity).
  rewrite Hm in H.
  assert (He : defaulted (rt := up) decoded_post (clock (producer healthy [])) = posted)
    by (vm_compute; reflexivity).
  rewrite He in H. exact H.
Defined.

(** C4 does not hold for a [user_id] that is given but empty: the request
    [/events?user_id=] carries the parameter, and the answer lists every
    user's rows. *)
Lemma empty_user_id_filters_nothing :
  let r := get [("user_id", "")] in
  In ("user_id", "") (Query r) /\
  fst (@getEvents float binary64 up r sink3) =
    {| Status := 200;
       Headers := corsHeaders ++ [("Content-Type", "application/json")];
       RespBody :=
         (render (JArr (map (@CoordinateEvent_doc_omitempty float up)
                            [event2; event3; event1])) ++ newline)%string |} /\
  UserID event2 <> Query_Get (Query r) "user_id".
Proof.
  cbv zeta. split; [left; reflexivity|].
  split; [vm_compute; reflexivity | discriminate].
Qed.

Lemma query_endpoint_witness :
  exists events,
    RespBody (fst (@getEvents float binary64 up (get [("limit", "10")]) sink3)) =
      (render (JArr (map (@CoordinateEvent_doc_omitempty float up) events))
       ++ newline)%string /\
    (Z.of_nat (List.length events) <= 10)%Z /\
    StronglySorted newer_or_same events.
Proof.
  destruct (@query_endpoint_result float binary64 up (get [("limit", "10")]) sink3
              eq_refl)
    as [events [Hresp [_ [Hlim [_ [Hsorted Hrows]]]]]].
  exists events.
  split; [|split; [apply Hlim; [reflexivity | reflexivity] | exact Hsorted]].
  rewrite Hresp. cbn [RespBody]. unfold json_Marshal_events.
  replace (forallb _ events) with true; [reflexivity|].
  symmetry. apply forallb_forall. intros e He.
  destruct (Hrows e He) as [row [Hin [_ [_ [Hlat [Hlon _]]]]]].
  rewrite <- Hlat, <- Hlon.
  destruct Hin as [<-|[<-|[<-|[]]]]; reflexivity.
Defined.

Lemma consume_loop_witness :
  exists row,
    table (@consumeStep float binary64 up (Poll (Some (KMessage (payload event1))))
                        sink0) = table sink0 ++ [row] /\
    stores row event1.
Proof.
  destruct (@consume_loop_handles_message float binary64 up (payload event1) [] sink0
              eq_refl) as [_ [_ H]].
  assert (Hu : @json_Unmarshal float binary64 up (payload event1) = Some event1)
    by (vm_compute; reflexivity).
  rewrite Hu in H.
  change (@db_Exec_fails float up (table sink0) event1) with false in H.
  exact H.
Defined.

Lemma tick_witness :
  exists new,
    calls (@tick float binary64 up (producer healthy nine)) =
      calls (producer healthy nine) ++ new /\
    map Key (coordinateMessages new) = map ID (@users float binary64).
Proof.
  destruct (@tick_emits_one_coordinate_per_user float binary64 up
              (producer healthy nine))
    as [new [Hcalls [_ [Hkeys _]]]].
  - vm_compute. reflexivity.
  - exists new. split; [exact Hcalls | exact Hkeys].
Defined.


Lemma query_is_repeatable_witness :
  let r1 := get [("user_id", "u1"); ("limit", "1")] in
  let r2 := get [("limit", "1"); ("user_id", "u1"); ("user_id", "u2")] in
  fst (@getEvents float binary64 up r1 sink3) =
    fst (@getEvents float binary64 up r2 (clogf "another request" sink3)) /\
  table (snd (@getEvents float binary64 up r1 sink3)) = table sink3 /\
  fst (@getEvents float binary64 up r1 (snd (@getEvents float binary64 up r1 sink3))) =
    fst (@getEvents float binary64 up r1 sink3).
Proof.
  cbv zeta.
  apply (@query_is_repeatable float binary64 up); reflexivity.
Defined.

Lemma invalid_limit_witness :
  limitOf "abc" = 50%Z /\
  @getEvents float binary64 up (get [("limit", "abc")]) sink3 =
    @getEvents float binary64 up (get []) sink3.
Proof.
  destruct (@invalid_limit_means_default float binary64 up
              (get [("limit", "abc")]) sink3) as [Hdef [Hsame _]].
  - intros [n [Hn _]]. vm_compute in Hn. discriminate Hn.
  - split; [exact Hdef | exact Hsame].
Defined.

(** The decimal literals of the source, as float64. *)
Example binary64_literals :
  map binary64_lit
      [407128 # 10000; -740060 # 10000; 340522 # 10000; -1182437 # 10000;
       515074 # 10000; -1278 # 10000; 2 # 100; 1 # 100; 1 # 10]%Q =
  [0x1.45b3d07c84b5ep+5; -0x1.280624dd2f1aap+6; 0x1.106ae7d566cf4p+5;
   -0x1.d8f98c7e28241p+6; 0x1.9c0f27bb2fec5p+5; -0x1.05bc01a36e2ebp-3;
   0x1.47ae147ae147bp-6; 0x1.47ae147ae147bp-7; 0x1.999999999999ap-4]%float.
Proof. vm_compute. reflexivity. Qed.

(** The limits the query uses for some parameter values. *)
Example limit_examples :
  map limitOf [""; "0"; "-5"; "abc"; "7"; "+7"; "007"; "99999999999999999999"] =
  [50; 50; 50; 50; 7; 7; 7; 50]%Z.
Proof. vm_compute. reflexivity. Qed.

(** A nil slice would have been encoded as [null]; the handler starts
    from an empty one. *)
Example empty_slice_is_not_null :
  @json_Marshal_events float binary64 up (Some []) = Some "[]" /\
  @json_Marshal_events float binary64 up None = Some "null".
Proof. split; reflexivity. Qed.

(** ** More about the generator *)

Section GeneratorMore.

Context {F : Type} {ops : Float64Ops F} {rt : Runtime F}.

(** What a user's turn adds to the calls on the client, case by case.  The
    location event is built from the position and time of the coordinate
    event, so it serialises whenever that one did. *)
Lemma userStep_shape (u : User F) (st : PState) :
  let ce := coordEventOf u st in
  match json_Marshal_CoordinateEvent ce with
  | None => calls (userStep u st) = calls st
  | Some d =>
      let mc := {| Topic := "coordinates"; Key := ID u; Value := d |} in
      let okc := kafka_accepts (calls st) mc in
      (exists n, calls (userStep u st) = calls st ++ [CProduce mc okc; CFlush 0 n]) \/
      (exists le dl okl n g,
          json_Marshal_LocationEvent le = Some dl /\
          LocUserID le = UserID ce /\ LocSessionID le = SessionID ce /\
          LocLat le = EvLat ce /\ LocLon le = EvLon ce /\
          LocTimestamp le = Timestamp ce /\
          LocLocation le =
            nth (fst (rand_Intn (List.length locations) g)) locations "" /\
          calls (userStep u st) =
            calls st
            ++ [CProduce mc okc;
                CProduce {| Topic := "locations"; Key := ID u; Value := dl |} okl;
                CFlush 0 n])
  end.
Proof.
  cbv zeta. unfold userStep, coordEventOf.
  destruct (generateCoordinate (Base u) (rng st)) as [pos g1].
  destruct (time_Now (clock st)) as [now c1].
  unfold json_Marshal_CoordinateEvent. cbn [EvLat EvLon].
  destruct (ffinite (Lat pos) && ffinite (Lon pos)) eqn:Hfin; [|reflexivity].
  unfold Produce. cbn -[nth locations].
  destruct (kafka_accepts (calls st) _) eqn:Hok; cbn -[nth locations].
  all: destruct (rand_Float64 g1) as [chance g2]; cbn -[nth locations].
  all: destruct (fltb chance _); cbn -[nth locations].
  all: try (left; eexists; rewrite <- app_assoc; reflexivity).
  all: destruct (rand_Intn _ g2) as [k g3] eqn:Hk; cbn -[nth locations].
  all: unfold json_Marshal_LocationEvent; cbn [LocLat LocLon]; rewrite Hfin.
  all: destruct (kafka_accepts (calls st ++ _) _); cbn -[nth locations].
  all: right;
    exists {| LocUserID := ID u; LocSessionID := "s1";
              LocLocation := nth k locations "";
              LocLat := Lat pos; LocLon := Lon pos; LocTimestamp := now |}.
  all: eexists; eexists; eexists; exists g2.
  all: (split; [unfold json_Marshal_LocationEvent; cbn [LocLat LocLon];
                rewrite Hfin; reflexivity|]).
  all: rewrite Hk; cbn -[nth locations]; repeat rewrite <- app_assoc.
  all: repeat split.
Qed.

(** A property of call lists that holds of no calls, is kept by appending
    and holds of what each roster user's turn adds holds of what any run of
    the generator adds. *)
Lemma generateEvents_adds (P : list KCall -> Prop) :
  P [] ->
  (forall a b, P a -> P b -> P (a ++ b)) ->
  (forall u st, In u users ->
     exists new, calls (userStep u st) = calls st ++ new /\ P new) ->
  forall done st,
    exists new, calls (fst (generateEvents done st)) = calls st ++ new /\ P new.
Proof.
  intros Pnil Papp Pstep.
  assert (Hpass : forall roster, incl roster users -> forall st,
             exists new, calls (rosterPass roster st) = calls st ++ new /\ P new).
  { induction roster as [|u roster IH]; intros Hincl st.
    - exists []. split; [now rewrite app_nil_r | exact Pnil].
    - destruct (Pstep u st) as [n1 [H1 P1]]; [apply Hincl; now left|].
      destruct (IH (fun x Hx => Hincl x (or_intror Hx)) (userStep u st))
        as [n2 [H2 P2]].
      exists (n1 ++ n2). cbn [rosterPass fold_left].
      fold (rosterPass roster (userStep u st)).
      rewrite H2, H1, app_assoc. split; [reflexivity | now apply Papp]. }
  assert (Hloop : forall done st,
             exists new, calls (fst (tickLoop done st)) = calls st ++ new /\ P new).
  { induction done as [|b done IH]; intros st.
    - exists []. split; [now rewrite app_nil_r | exact Pnil].
    - destruct b.
      + exists []. split; [now rewrite app_nil_r | exact Pnil].
      + cbn [tickLoop].
        destruct (Hpass users (incl_refl _) st) as [n1 [H1 P1]].
        destruct (IH (sleep5s (rosterPass users st))) as [n2 [H2 P2]].
        exists (n1 ++ n2). rewrite H2, sleep5s_calls, H1, app_assoc.
        split; [reflexivity | now apply Papp]. }
  intros done st. unfold generateEvents.
  destruct (Hloop done (plogf "Starting GPS event generation" st)) as [new [H1 H2]].
  exists new. now split.
Qed.

Lemma locationMessages_app (a b : list KCall) :
  locationMessages (a ++ b) = locationMessages a ++ locationMessages b.
Proof. unfold locationMessages. apply flat_map_app. Qed.

Lemma flushTimeouts_app (a b : list KCall) :
  flushTimeouts (a ++ b) = flushTimeouts a ++ flushTimeouts b.
Proof. unfold flushTimeouts. apply flat_map_app. Qed.

(** X1.  A location update never travels alone: in any run of the
    generator, every message produced on topic [locations] has, in the same
    run, a message on topic [coordinates] under the same roster user's key,
    and the location event repeats the user, session, latitude, longitude
    and timestamp of that coordinate event. *)
Theorem location_repeats_coordinate (done : list bool) (st : PState) :
  exists new,
    calls (fst (generateEvents done st)) = calls st ++ new /\ echoes users new.
Proof.
  apply generateEvents_adds.
  - intros m ok [].
  - intros a b Ha Hb m ok Hin Ht. apply in_app_or in Hin as [Hin|Hin].
    + destruct (Ha m ok Hin Ht) as (u & ce & le & mc & okc & Hu & Hmc & H).
      exists u, ce, le, mc, okc. split; [exact Hu|]. split; [|exact H].
      apply in_or_app. now left.
    + destruct (Hb m ok Hin Ht) as (u & ce & le & mc & okc & Hu & Hmc & H).
      exists u, ce, le, mc, okc. split; [exact Hu|]. split; [|exact H].
      apply in_or_app. now right.
  - intros u st' Hu. pose proof (userStep_shape u st') as Hs. cbv zeta in Hs.
    destruct (json_Marshal_CoordinateEvent (coordEventOf u st')) as [d|] eqn:Hm.
    + destruct Hs as [[n Hs]|(le & dl & okl & n & g & Hl & H1 & H2 & H3 & H4 & H5 & _ & Hs)].
      * eexists. split; [exact Hs|]. intros m ok [Hin|[Hin|[]]] Ht;
          inversion Hin; subst; discriminate.
      * eexists. split; [exact Hs|]. intros m ok [Hin|[Hin|[Hin|[]]]] Ht;
          inversion Hin; subst; try discriminate.
        exists u, (coordEventOf u st'), le,
          {| Topic := "coordinates"; Key := ID u; Value := d |},
          (kafka_accepts (calls st') {| Topic := "coordinates"; Key := ID u; Value := d |}).
        cbn. repeat split; auto.
    + exists []. split; [now rewrite app_nil_r | intros m ok []].
Qed.


(** X3.  Whatever the random source, the clock and the client do, a run
    of the generator calls [Produce] only on the topics [coordinates] and
    [locations] and only under the id of a roster user, and calls [Flush]
    only with timeout 0. *)
Theorem generator_stays_within_roster (done : list bool) (st : PState) :
  exists new,
    calls (fst (generateEvents done st)) = calls st ++ new /\
    withinRoster users new.
Proof.
  apply generateEvents_adds.
  - constructor.
  - intros a b Ha Hb. apply Forall_app. now split.
  - intros u st' Hu. pose proof (userStep_shape u st') as Hs. cbv zeta in Hs.
    assert (Hk : In (ID u) (map ID users)) by now apply in_map.
    destruct (json_Marshal_CoordinateEvent (coordEventOf u st')) as [d|] eqn:Hm.
    + destruct Hs as [[n Hs]|(le & dl & okl & n & g & _ & _ & _ & _ & _ & _ & _ & Hs)];
        eexists; (split; [exact Hs|]).
      * constructor; [split; [now left | exact Hk]|].
        constructor; [reflexivity | constructor].
      * constructor; [split; [now left | exact Hk]|].
        constructor; [split; [now right | exact Hk]|].
        constructor; [reflexivity | constructor].
    + exists []. split; [now rewrite app_nil_r | constructor].
Qed.

(** X4.  In any run the generator serves delivery callbacks with
    [Flush(0)] exactly once for each coordinate message it hands to the
    client, and hands over at most one location message per coordinate
    message: the [continue] after a failed location marshal, which would
    skip the [Flush], is never taken. *)
Theorem one_flush_per_coordinate (done : list bool) (st : PState) :
  exists new,
    calls (fst (generateEvents done st)) = calls st ++ new /\
    List.length (flushTimeouts new) = List.length (coordinateMessages new) /\
    (List.length (locationMessages new) <= List.length (coordinateMessages new))%nat.
Proof.
  apply (generateEvents_adds
           (fun new =>
              List.length (flushTimeouts new) = List.length (coordinateMessages new) /\
              (List.length (locationMessages new)
               <= List.length (coordinateMessages new))%nat)).
  - split; [reflexivity | apply le_n].
  - intros a b [Ha1 Ha2] [Hb1 Hb2].
    rewrite flushTimeouts_app, coordinateMessages_app, locationMessages_app.
    rewrite !length_app. lia.
  - intros u st' Hu. pose proof (userStep_shape u st') as Hs. cbv zeta in Hs.
    destruct (json_Marshal_CoordinateEvent (coordEventOf u st')) as [d|] eqn:Hm.
    + destruct Hs as [[n Hs]|(le & dl & okl & n & g & _ & _ & _ & _ & _ & _ & _ & Hs)];
        eexists; (split; [exact Hs|]); cbn; split; lia.
    + exists []. split; [now rewrite app_nil_r|]. cbn. split; lia.
Qed.

(** X5.  A run that finds the stop signal after [n] ticks, every position
    of which is finite, has handed to the client [n] rounds of coordinate
    messages, each round keyed by the roster's ids in roster order. *)
Theorem ticks_emit_roster_rounds (n : nat) (rest : list bool) (st : PState) :
  ticksSerializable n (plogf "Starting GPS event generation" st) = true ->
  exists new,
    calls (fst (generateEvents (repeat false n ++ true :: rest) st)) = calls st ++ new /\
    map Key (coordinateMessages new) = List.concat (repeat (map ID users) n).
Proof.
  unfold generateEvents. rewrite tickLoop_unroll. cbn [fst]. rewrite plogf_calls.
  change (calls st) with (calls (plogf "Starting GPS event generation" st)).
  generalize (plogf "Starting GPS event generation" st). clear st.
  induction n as [|n IH]; intros st Hser.
  - exists []. split; [now rewrite app_nil_r | reflexivity].
  - cbn [ticksSerializable] in Hser. apply andb_prop in Hser as [Hpass Hrest].
    rewrite Nat.iter_succ_r.
    destruct (rosterPass_coordinates users st Hpass) as [n1 [H1 F1]].
    destruct (IH (tick st) Hrest) as [n2 [H2 F2]].
    assert (Ht : calls (tick st) = calls st ++ n1)
      by (unfold tick; now rewrite sleep5s_calls).
    exists (n1 ++ n2). rewrite H2, Ht, app_assoc. split; [reflexivity|].
    rewrite coordinateMessages_app, map_app, F2. cbn [repeat List.concat].
    f_equal. apply Forall2_keys. eapply Forall2_impl; [|exact F1].
    cbv beta. intros u m [_ [Hk _]]. exact Hk.
Qed.

(** *** Delivery reports *)

Lemma sameButLog_refl (a : PState) : sameButLog a a.
Proof. now repeat split. Qed.

Lemma userStep_sameButLog (u : User F) (a b : PState) :
  sameButLog a b -> sameButLog (userStep u a) (userStep u b).
Proof.
  destruct a as [ga ca ka la], b as [gb cb kb lb].
  intros (Hg & Hc & Hk). cbn in Hg, Hc, Hk. subst gb cb kb.
  unfold sameButLog, userStep. cbn [rng clock calls plog].
  destruct (generateCoordinate (Base u) ga) as [pos g1].
  destruct (time_Now ca) as [now c1].
  destruct (json_Marshal_CoordinateEvent _) as [d|]; cbn; [|now repeat split].
  unfold Produce. cbn.
  destruct (kafka_accepts ka _); cbn.
  all: destruct (rand_Float64 g1) as [chance g2]; cbn.
  all: destruct (fltb chance _); cbn; try (now repeat split).
  all: destruct (rand_Intn _ g2) as [k g3]; cbn.
  all: destruct (json_Marshal_LocationEvent _) as [ld|]; cbn; try (now repeat split).
  all: destruct (kafka_accepts _ _); cbn; now repeat split.
Qed.

Lemma rosterPass_sameButLog (roster : list (User F)) :
  forall a b, sameButLog a b -> sameButLog (rosterPass roster a) (rosterPass roster b).
Proof.
  induction roster as [|u roster IH]; intros a b H; [exact H|].
  cbn [rosterPass fold_left]. apply IH. now apply userStep_sameButLog.
Qed.

Lemma tickLoop_sameButLog (done : list bool) :
  forall a b, sameButLog a b ->
    sameButLog (fst (tickLoop done a)) (fst (tickLoop done b)) /\
    snd (tickLoop done a) = snd (tickLoop done b).
Proof.
  induction done as [|d done IH]; intros a b H; [now split|].
  destruct d; cbn [tickLoop].
  - split; [|reflexivity]. destruct H as (Hg & Hc & Hk). now repeat split.
  - apply IH. pose proof (rosterPass_sameButLog users a b H) as (Hg & Hc & Hk).
    unfold sleep5s, sameButLog. cbn [rng clock calls]. now rewrite Hg, Hc, Hk.
Qed.

Lemma deliveryReport_sameButLog (events : list DeliveryEvent) :
  forall st, sameButLog (deliveryReport events st) st /\
             List.length (plog (deliveryReport events st)) =
               (List.length (plog st) + List.length events)%nat.
Proof.
  unfold deliveryReport.
  induction events as [|e events IH]; intros st; cbn [fold_left].
  - split; [apply sameButLog_refl | cbn; lia].
  - destruct (IH (reportStep e st)) as [(Hg & Hc & Hk) Hlen]. split.
    + unfold sameButLog. rewrite Hg, Hc, Hk.
      destruct e as [t p o [err|]|err|text]; cbn; now repeat split.
    + rewrite Hlen.
      destruct e as [t p o [err|]|err|text]; cbn; rewrite length_app; cbn; lia.
Qed.

(** X6.  [deliveryReport] writes one log line per event it receives and
    does nothing else: it never calls the client, so a failed delivery is
    not sent again.  The generator does not read the log, so a run started
    after any reports, failures included, draws the same samples, reads the
    same clock, makes the same calls on the client and stops at the same
    point as a run started without them. *)
Theorem delivery_reports_leave_generator_alone
  (events : list DeliveryEvent) (done : list bool) (st : PState) :
  calls (deliveryReport events st) = calls st /\
  List.length (plog (deliveryReport events st)) =
    (List.length (plog st) + List.length events)%nat /\
  sameButLog (fst (generateEvents done (deliveryReport events st)))
             (fst (generateEvents done st)) /\
  snd (generateEvents done (deliveryReport events st)) = snd (generateEvents done st).
Proof.
  destruct (deliveryReport_sameButLog events st) as [Hsame Hlen].
  split; [apply Hsame|]. split; [exact Hlen|].
  unfold generateEvents. apply tickLoop_sameButLog.
  destruct Hsame as (Hg & Hc & Hk). now repeat split.
Qed.

End GeneratorMore.

(** ** More about the sink *)

Section SinkMore.

Context {F : Type} {ops : Float64Ops F} {rt : Runtime F}.

Lemma consumeLoop_stopped (inputs : list LoopInput) (st : CState) :
  running st = false -> consumeLoop inputs st = st.
Proof. intros H. destruct inputs; cbn; [reflexivity | now rewrite H]. Qed.

(** X7.  Once a termination signal is taken, the consume loop is over:
    nothing polled afterwards is looked at, stored or logged, and the loop
    ends with [running] false. *)
Theorem consume_loop_stops_at_signal (pre rest : list LoopInput) (sig : string)
  (st : CState) :
  consumeLoop (pre ++ Signal sig :: rest) st = consumeLoop (pre ++ [Signal sig]) st /\
  running (consumeLoop (pre ++ Signal sig :: rest) st) = false.
Proof.
  revert st. induction pre as [|i pre IH]; intros st; cbn [app consumeLoop].
  - destruct (running st) eqn:Hr; [|now split].
    cbn [consumeStep]. split; [|now rewrite consumeLoop_stopped].
    now rewrite !consumeLoop_stopped.
  - destruct (running st) eqn:Hr; [apply IH | now split].
Qed.

(** X18.  The consume loop is one pass over its inputs, so running it on
    a sequence is running it on a first part and then, from where that
    left off, on the rest; and only a signal ends it: over inputs without a
    signal (messages good or bad, client errors, timeouts) [running] stays
    as it was. *)
Theorem consume_loop_composes (a b : list LoopInput) (st : CState) :
  consumeLoop (a ++ b) st = consumeLoop b (consumeLoop a st) /\
  (Forall (fun i => match i with Signal _ => False | Poll _ => True end) a ->
   running (consumeLoop a st) = running st).
Proof.
  split.
  - revert st. induction a as [|i a IH]; intros st; cbn [app consumeLoop];
      [reflexivity|].
    destruct (running st) eqn:Hr; [apply IH|].
    now rewrite consumeLoop_stopped.
  - intros Hno. revert st. induction Hno as [|i a Hi _ IH]; intros st;
      cbn [consumeLoop]; [reflexivity|].
    destruct (running st) eqn:Hr; [|exact Hr]. rewrite IH, <- Hr.
    destruct i as [sig|[[value|err|]|]]; [contradiction| | | |]; cbn;
      try reflexivity.
    destruct (json_Unmarshal value) as [event|]; [|reflexivity].
    now destruct (stmt_Exec event (table st)).
Qed.

Lemma messageCount_cons (i : LoopInput) (inputs : list LoopInput) :
  messageCount (i :: inputs) = (messageCount [i] + messageCount inputs)%nat.
Proof.
  unfold messageCount. cbn [filter].
  destruct i as [sig|[[value|err|]|]]; reflexivity.
Qed.

Lemma consumeStep_adds (i : LoopInput) (st : CState) :
  exists new,
    table (consumeStep i st) = table st ++ new /\
    (List.length new <= messageCount [i])%nat /\
    Forall readable new.
Proof.
  destruct i as [sig|[[value|err|]|]]; cbn;
    try (exists []; rewrite app_nil_r; repeat split; auto; lia).
  unfold stmt_Exec.
  destruct (json_Unmarshal value) as [event|]; cbn;
    [|exists []; rewrite app_nil_r; repeat split; auto].
  destruct (db_Exec_fails (table st) event); cbn;
    [exists []; rewrite app_nil_r; repeat split; auto|].
  eexists. split; [reflexivity|]. split; [cbn; lia|].
  constructor; [discriminate | constructor].
Qed.

Lemma consumeLoop_readable (inputs : list LoopInput) (st : CState) :
  Forall readable (table st) -> Forall readable (table (consumeLoop inputs st)).
Proof.
  revert st. induction inputs as [|i inputs IH]; intros st Hst;
    cbn [consumeLoop]; [exact Hst|].
  destruct (running st); [|exact Hst].
  apply IH. destruct (consumeStep_adds i st) as [new [-> [_ Hnew]]].
  now apply Forall_app.
Qed.

(** X8.  The consume loop only ever appends to the table: the rows it
    found are still there, unchanged and in place; it adds at most one row
    per message polled (none for a timeout, a client error or any other
    event); and every row it adds has a session id that is not NULL. *)
Theorem sink_only_appends (inputs : list LoopInput) (st : CState) :
  exists new,
    table (consumeLoop inputs st) = table st ++ new /\
    (List.length new <= messageCount inputs)%nat /\
    Forall readable new.
Proof.
  revert st. induction inputs as [|i inputs IH]; intros st; cbn [consumeLoop].
  - exists []. rewrite app_nil_r. repeat split; auto.
  - destruct (running st).
    + destruct (consumeStep_adds i st) as [n1 [H1 [L1 R1]]].
      destruct (IH (consumeStep i st)) as [n2 [H2 [L2 R2]]].
      exists (n1 ++ n2). rewrite H2, H1, app_assoc. split; [reflexivity|].
      split; [|now apply Forall_app].
      rewrite length_app, (messageCount_cons i inputs). lia.
    + exists []. rewrite app_nil_r.
      split; [reflexivity | split; [cbn; lia | constructor]].
Qed.

Lemma next_id_above (t : list (Row F)) (r : Row F) :
  In r t -> (row_id r < next_id t)%Z.
Proof.
  unfold next_id. induction t as [|x t IH]; cbn [map fold_right In]; [tauto|].
  intros [->|Hin]; [lia|]. specialize (IH Hin). lia.
Qed.

Lemma consumeStep_ids (i : LoopInput) (st : CState) :
  NoDup (map row_id (table st)) -> NoDup (map row_id (table (consumeStep i st))).
Proof.
  intros Hnd. destruct i as [sig|[[value|err|]|]]; cbn [consumeStep table clogf]; auto.
  unfold stmt_Exec.
  destruct (json_Unmarshal value) as [event|]; cbn [table clogf]; auto.
  destruct (db_Exec_fails (table st) event); cbn [table clogf]; auto.
  rewrite map_app. cbn [map row_id].
  apply NoDup_app; [exact Hnd | repeat constructor; intros []|].
  intros x Hx [<-|[]]. apply in_map_iff in Hx as [r [Hr Hin]].
  apply next_id_above in Hin. lia.
Qed.

(** X9.  The keys stay distinct: a table whose [id]s are pairwise
    different still has pairwise different [id]s after the consume loop has
    run on any inputs. *)
Theorem sink_keeps_ids_distinct (inputs : list LoopInput) (st : CState) :
  NoDup (map row_id (table st)) ->
  NoDup (map row_id (table (consumeLoop inputs st))).
Proof.
  revert st. induction inputs as [|i inputs IH]; intros st Hnd; cbn [consumeLoop].
  - exact Hnd.
  - destruct (running st); [|exact Hnd]. apply IH. now apply consumeStep_ids.
Qed.

(** X10.  The sink does not recognise a message it has seen before: the
    same payload delivered twice, as an at-least-once channel may do, is
    stored as two rows with the same five fields and different keys. *)
Theorem redelivered_message_is_stored_twice (value : string) (e : CoordinateEvent F)
  (st : CState) :
  running st = true ->
  json_Unmarshal value = Some e ->
  (forall t, db_Exec_fails t e = false) ->
  exists r1 r2,
    table (consumeLoop [Poll (Some (KMessage value)); Poll (Some (KMessage value))] st) =
      table st ++ [r1; r2] /\
    stores r1 e /\ stores r2 e /\ (row_id r1 < row_id r2)%Z.
Proof.
  intros Hrun Hdec Hdb.
  assert (Hstep : forall s, running s = true ->
            consumeStep (Poll (Some (KMessage value))) s =
            {| table := table s
                        ++ [ {| row_id := next_id (table s); user_id := UserID e;
                                session_id := Some (SessionID e); lat := EvLat e;
                                lon := EvLon e; timestamp := Timestamp e |} ];
               clog := clog s ++ ["Stored event"]; running := true |}).
  { intros s Hs. unfold consumeStep, stmt_Exec. now rewrite Hdec, Hdb, Hs. }
  cbn [consumeLoop]. rewrite Hrun, (Hstep st Hrun). cbn [running].
  rewrite Hstep by reflexivity. cbn [table].
  eexists. eexists. split; [rewrite <- app_assoc; reflexivity|].
  split; [repeat split|]. split; [repeat split|].
  match goal with
  | |- (row_id ?r1 < row_id ?r2)%Z =>
      change (row_id r2) with (next_id (table st ++ [r1]))
  end.
  apply next_id_above. apply in_or_app. right. now left.
Qed.

Lemma insert_desc_perm (r : Row F) (l : list (Row F)) :
  Permutation (insert_desc r l) (r :: l).
Proof.
  induction l as [|x l IH]; cbn; [reflexivity|].
  destruct (String.ltb (timestamp r) (timestamp x)); [|reflexivity].
  rewrite IH. apply perm_swap.
Qed.

Lemma order_by_perm (l : list (Row F)) : Permutation (order_by_timestamp_desc l) l.
Proof.
  induction l as [|r l IH]; cbn; [reflexivity|].
  rewrite insert_desc_perm. now constructor.
Qed.

Lemma sorted_app_inv {A : Type} (R : A -> A -> Prop) (l1 l2 : list A) :
  StronglySorted R (l1 ++ l2) -> forall a b, In a l1 -> In b l2 -> R a b.
Proof.
  induction l1 as [|x l1 IH]; cbn; intros Hs a b Ha Hb; [contradiction|].
  inversion Hs as [|? ? Hs' Hall]; subst. destruct Ha as [->|Ha].
  - rewrite Forall_forall in Hall. apply Hall. apply in_or_app. now right.
  - now apply IH.
Qed.

(** X11.  LIMIT cuts at the old end.  The rows that pass the filter are
    split into those listed and those left out; every listed row is at
    least as new, by timestamp text, as every row left out; and rows are
    left out only when the listed ones already number [limit]. *)
Theorem limit_keeps_the_newest (r : Request) (st : CState) :
  db_Query_fails (table st) = false ->
  exists kept dropped,
    fst (getEvents r st) = listing (scanned kept) /\
    Permutation (kept ++ dropped) (filter (matches (queryOf r)) (table st)) /\
    (forall a b, In a kept -> In b dropped -> before a b) /\
    (dropped <> [] ->
     Z.of_nat (List.length kept) = limitOf (Query_Get (Query r) "limit")).
Proof.
  intros Hok.
  pose proof (limitOf_positive (Query_Get (Query r) "limit")) as Hpos.
  set (n := Z.to_nat (limitOf (Query_Get (Query r) "limit"))).
  set (sorted := order_by_timestamp_desc (filter (matches (queryOf r)) (table st))).
  exists (firstn n sorted), (skipn n sorted).
  split; [|split; [|split]].
  - rewrite (getEvents_ok r st Hok). reflexivity.
  - rewrite firstn_skipn. apply order_by_perm.
  - apply sorted_app_inv. rewrite firstn_skipn. apply order_by_sorted.
  - intros Hdrop. rewrite length_firstn.
    destruct (Nat.le_gt_cases (List.length sorted) n) as [Hle|Hgt].
    + exfalso. apply Hdrop. now apply skipn_all2.
    + subst n. lia.
Qed.

Lemma scanned_readable (rows : list (Row F)) :
  Forall readable rows -> List.length (scanned rows) = List.length rows.
Proof.
  unfold scanned. induction 1 as [|r rows Hr _ IH]; cbn [flat_map]; [reflexivity|].
  unfold rows_Scan at 1. destruct (session_id r) eqn:Hs; [|now elim Hr].
  cbn [app List.length]. now rewrite IH.
Qed.

Lemma collect_readable (rows : list (Row F)) :
  Forall readable rows ->
  forall acc st, snd (collect rows acc st) = st.
Proof.
  induction 1 as [|r rows Hr _ IH]; intros acc st; cbn; [reflexivity|].
  unfold rows_Scan. destruct (session_id r) eqn:Hs; [apply IH | now elim Hr].
Qed.

Lemma order_by_length (l : list (Row F)) :
  List.length (order_by_timestamp_desc l) = List.length l.
Proof. apply Permutation_length, order_by_perm. Qed.

(** X12.  What the sink stores, the endpoint can read.  On a table whose
    rows all have a session id, as every row written by the consume loop
    has, a query that runs lists exactly as many events as the smaller of
    [limit] and the number of rows passing the filter, skips none, and
    leaves the whole state, log included, as it was. *)
Theorem stored_rows_are_all_listed (inputs : list LoopInput) (r : Request)
  (st0 : CState) :
  Forall readable (table st0) ->
  let st := consumeLoop inputs st0 in
  db_Query_fails (table st) = false ->
  snd (getEvents r st) = st /\
  exists events,
    fst (getEvents r st) = listing events /\
    List.length events =
      Nat.min (Z.to_nat (limitOf (Query_Get (Query r) "limit")))
              (List.length (filter (matches (queryOf r)) (table st))).
Proof.
  intros Hread st Hok.
  assert (Hall : Forall readable (table st)).
  { subst st. now apply consumeLoop_readable. }
  assert (Hsel : Forall readable (selected r (table st))).
  { apply Forall_forall. intros x Hx. apply selected_In in Hx as [Hx _].
    rewrite Forall_forall in Hall. now apply Hall. }
  split.
  - unfold getEvents, db_Query. rewrite Hok.
    pose proof (limitOf_positive (Query_Get (Query r) "limit")) as Hpos.
    cbn [limit_arg buildQuery].
    destruct (limitOf (Query_Get (Query r) "limit") <? 0)%Z eqn:Hneg; [lia|].
    match goal with
    | |- context [collect ?rows (Some []) st] =>
        pose proof (collect_readable rows Hsel (Some []) st) as Hc;
        destruct (collect rows (Some []) st) as [events st']
    end.
    cbn [snd] in Hc. subst st'. now destruct (json_Marshal_events events).
  - exists (scanned (selected r (table st))).
    split; [now rewrite (getEvents_ok r st Hok)|].
    rewrite (scanned_readable _ Hsel). unfold selected. cbn [limit_arg buildQuery].
    rewrite length_firstn, order_by_length. reflexivity.
Qed.

(** X13.  The encoding of the query endpoint loses nothing: decoding the
    document it writes for an event, in which an empty session id is left
    out, gives the event back, provided its two numbers survive their text
    form. *)
Theorem response_document_reads_back (e : CoordinateEvent F) :
  parseFloat (formatFloat (EvLat e)) = Some (EvLat e) ->
  parseFloat (formatFloat (EvLon e)) = Some (EvLon e) ->
  decodeEvent (CoordinateEvent_doc_omitempty e) = Some e.
Proof.
  intros Hlat Hlon. destruct e as [u s la lo t]. cbn in *.
  destruct (String.eqb_spec s "") as [->|Hne]; cbn;
    rewrite Hlat; cbn; rewrite Hlon; reflexivity.
Qed.

Lemma produceHandler_accepted (req : Request) (decoded : CoordinateEvent F)
  (pst : PState) :
  Method req = "POST" ->
  json_Decode (Body req) = Some decoded ->
  ffinite (EvLat decoded) && ffinite (EvLon decoded) = true ->
  kafka_accepts (calls pst)
    {| Topic := "coordinates"; Key := UserID decoded;
       Value := json_render (CoordinateEvent_doc (defaulted decoded (clock pst))) |} = true ->
  fst (produceHandler req pst) = {| Status := 200; Headers := []; RespBody := "ok" |} /\
  exists n,
    calls (snd (produceHandler req pst)) =
      calls pst
      ++ [CProduce {| Topic := "coordinates"; Key := UserID decoded;
                      Value := json_render
                                 (CoordinateEvent_doc (defaulted decoded (clock pst))) |}
                   true;
          CFlush 1000 n].
Proof.
  intros Hm Hd Hfin Hacc. unfold produceHandler. rewrite Hm, Hd.
  change (String.eqb "POST" "POST") with true. cbn [negb].
  unfold defaulted in *.
  destruct (String.eqb (Timestamp decoded) "").
  - destruct (time_Now (clock pst)) as [now c1]. cbn [fst] in *.
    unfold json_Marshal_CoordinateEvent. cbn [EvLat EvLon]. rewrite Hfin.
    unfold Produce. cbn. rewrite Hacc. cbn. split; [reflexivity|].
    eexists. now rewrite <- app_assoc.
  - unfold json_Marshal_CoordinateEvent. rewrite Hfin.
    unfold Produce. cbn. rewrite Hacc. cbn. split; [reflexivity|].
    eexists. now rewrite <- app_assoc.
Qed.

(** X14.  From ingress to query.  A POST whose body decodes to an event
    with finite coordinates, accepted by the client, puts on topic
    [coordinates] a message which, consumed by a sink with an empty table,
    makes [GET /events?user_id=<its user>&limit=1] list exactly that event,
    with the caller's timestamp or, when that was empty, the time of the
    request.  The text form of the event is assumed to read back as
    written, and the two database calls to succeed. *)
Theorem ingress_to_query (req : Request) (decoded : CoordinateEvent F)
  (pst : PState) (cst : CState) :
  let e := defaulted decoded (clock pst) in
  let m := {| Topic := "coordinates"; Key := UserID decoded;
              Value := json_render (CoordinateEvent_doc e) |} in
  Method req = "POST" ->
  json_Decode (Body req) = Some decoded ->
  ffinite (EvLat decoded) && ffinite (EvLon decoded) = true ->
  kafka_accepts (calls pst) m = true ->
  json_parse (json_render (CoordinateEvent_doc e)) = Some (CoordinateEvent_doc e) ->
  parseFloat (formatFloat (EvLat decoded)) = Some (EvLat decoded) ->
  parseFloat (formatFloat (EvLon decoded)) = Some (EvLon decoded) ->
  table cst = [] ->
  db_Exec_fails [] e = false ->
  (forall t, db_Query_fails t = false) ->
  fst (produceHandler req pst) = {| Status := 200; Headers := []; RespBody := "ok" |} /\
  In (CProduce m true) (calls (snd (produceHandler req pst))) /\
  fst (getEvents {| Method := "GET";
                    Query := [("user_id", UserID decoded); ("limit", "1")];
                    Body := "" |}
                 (consumeStep (Poll (Some (KMessage (Value m)))) cst)) =
    listing [e].
Proof.
  intros e m Hm Hd Hfin Hacc Htext Hlat Hlon Hempty Hexec Hquery.
  destruct (produceHandler_accepted req decoded pst Hm Hd Hfin Hacc) as [Hresp [n Hcalls]].
  split; [exact Hresp|]. split.
  { rewrite Hcalls. apply in_or_app. right. now left. }
  assert (He : EvLat e = EvLat decoded /\ EvLon e = EvLon decoded /\
               UserID e = UserID decoded).
  { subst e. unfold defaulted. now destruct (String.eqb (Timestamp decoded) ""). }
  destruct He as (Ela & Elo & Eu).
  assert (Hdec : json_Unmarshal (Value m) = Some e).
  { unfold json_Unmarshal. subst m. cbn [Value]. rewrite Htext.
    apply decode_doc; [now rewrite Ela | now rewrite Elo]. }
  rewrite getEvents_ok by apply Hquery.
  unfold consumeStep. rewrite Hdec. unfold stmt_Exec. rewrite Hempty, Hexec.
  clear Hdec Htext Hacc Hcalls. clearbody m. clearbody e.
  cbn [table app]. generalize (@next_id F []). intros rid.
  match goal with
  | |- context [scanned ?x] => assert (Hsel : scanned x = [e]); [|now rewrite Hsel]
  end.
  unfold selected. cbn [Query].
  change (Query_Get [("user_id", UserID decoded); ("limit", "1")] "user_id")
    with (UserID decoded).
  change (Query_Get [("user_id", UserID decoded); ("limit", "1")] "limit") with "1".
  change (limitOf "1") with 1%Z. cbn [buildQuery limit_arg filter].
  unfold matches. rewrite <- Eu. cbn.
  destruct (negb (String.eqb (UserID e) "")); rewrite ?String.eqb_refl;
    cbn; now destruct e.
Qed.

End SinkMore.

(** ** More about the limit *)

Lemma digitsValue_uint (d : Decimal.uint) (acc : Z) :
  digitsValue (NilEmpty.string_of_uint d) acc = Some (uintValue d acc).
Proof.
  revert acc. induction d; intros acc;
    cbn [NilEmpty.string_of_uint uintValue digitsValue];
    [reflexivity| | | | | | | | | |];
    match goal with
    | |- context [digitValue ?c] =>
        let v := eval vm_compute in (digitValue c) in change (digitValue c) with v
    end; cbv iota; rewrite ?Z.add_0_r; apply IHd.
Qed.

Lemma uintValue_acc (d : Decimal.uint) (acc : positive) :
  uintValue d (Z.pos acc) = Z.pos (Pos.of_uint_acc d acc).
Proof.
  revert acc. induction d; intros acc; cbn [uintValue Pos.of_uint_acc];
    [reflexivity| | | | | | | | | |];
    match goal with
    | |- uintValue _ ?z = _ =>
        match goal with
        | |- _ = Z.pos (Pos.of_uint_acc _ ?p) =>
            replace z with (Z.pos p) by lia; apply IHd
        end
    end.
Qed.

Lemma uintValue_of_uint (d : Decimal.uint) :
  uintValue d 0 = Z.of_N (Pos.of_uint d).
Proof.
  induction d; cbn [uintValue Pos.of_uint]; try reflexivity;
    try exact IHd;
    match goal with
    | |- uintValue _ ?z = _ => change z with (Z.pos ltac:(let p := eval cbv in (Z.to_pos z) in exact p))
    end; rewrite uintValue_acc; reflexivity.
Qed.

Lemma splitSign_digits (d : Decimal.uint) :
  d <> Decimal.Nil ->
  splitSign (NilEmpty.string_of_uint d) = (false, NilEmpty.string_of_uint d) /\
  NilEmpty.string_of_uint d <> EmptyString.
Proof.
  destruct d; intros H; [contradiction| | | | | | | | | |]; split; try reflexivity;
    discriminate.
Qed.

Lemma decimalValue_decimalText (n : Z) :
  (0 < n)%Z -> decimalValue (decimalText n) = Some n.
Proof.
  intros Hn. unfold decimalValue, decimalText.
  destruct (Z.to_N n) as [|p] eqn:Hp; [lia|].
  assert (Hnil : N.to_uint (N.pos p) <> Decimal.Nil)
    by apply DecimalPos.Unsigned.to_uint_nonnil.
  destruct (splitSign_digits _ Hnil) as [-> Hne].
  destruct (NilEmpty.string_of_uint (N.to_uint (N.pos p))) as [|c s] eqn:Hs;
    [contradiction|].
  rewrite <- Hs, digitsValue_uint, uintValue_of_uint.
  change (Pos.of_uint (N.to_uint (N.pos p))) with (N.of_uint (N.to_uint (N.pos p))).
  rewrite DecimalN.Unsigned.of_to. f_equal. lia.
Qed.

(** X17.  A limit written as a plain decimal number is used as written
    as long as it fits a 64-bit [int], however large; from 2^63 on it no
    longer parses and the default 50 takes its place. *)
Theorem limit_is_used_as_written (n : Z) :
  (0 < n)%Z ->
  limitOf (decimalText n) = if (n <=? 2 ^ 63 - 1)%Z then n else 50%Z.
Proof.
  intros Hn. pose proof (decimalValue_decimalText n Hn) as Hd.
  unfold limitOf.
  destruct (String.eqb_spec (decimalText n) "") as [E|_];
    [rewrite E in Hd; discriminate|].
  cbn [negb]. rewrite (decimalValue_Atoi _ _ Hd).
  replace (- 2 ^ 63 <=? n)%Z with true by (symmetry; apply Z.leb_le; lia).
  cbn [andb]. destruct (n <=? 2 ^ 63 - 1)%Z; [|reflexivity].
  now replace (0 <? n)%Z with true by (symmetry; apply Z.ltb_lt; lia).
Qed.

(** ** The MongoDB setup *)

Section MongoFacts.

Context {drv : Mongo.Driver}.

Lemma existsb_name (name : string) (cs : list Mongo.Collection) :
  existsb (fun coll => String.eqb coll name) (map Mongo.collName cs) = true <->
  In name (map Mongo.collName cs).
Proof.
  rewrite existsb_exists. split.
  - intros [x [Hin Heq]]. apply String.eqb_eq in Heq. now subst.
  - intros Hin. exists name. split; [exact Hin | apply String.eqb_refl].
Qed.

(** A setup on a database that lists and already has the name reports
    success and leaves the collections alone. *)
Lemma setupCollection_present (name : string) (v : json)
  (ixs : list Mongo.IndexModel) (st : Mongo.State) :
  Mongo.ListCollectionNames_fails (Mongo.colls st) = false ->
  In name (map Mongo.collName (Mongo.colls st)) ->
  fst (Mongo.setupCollection name v ixs st) = None /\
  Mongo.colls (snd (Mongo.setupCollection name v ixs st)) = Mongo.colls st.
Proof.
  intros Hlist Hin. apply existsb_name in Hin.
  unfold Mongo.setupCollection. rewrite Hlist, Hin. now split.
Qed.

Lemma setupCollection_adds (name : string) (v : json)
  (ixs : list Mongo.IndexModel) (st : Mongo.State) :
  exists new,
    Mongo.colls (snd (Mongo.setupCollection name v ixs st)) = Mongo.colls st ++ new /\
    (new = [] \/
     (fst (Mongo.setupCollection name v ixs st) = None /\
      new = [ {| Mongo.collName := name; Mongo.validator := v; Mongo.indexes := ixs |} ]) \/
     (fst (Mongo.setupCollection name v ixs st) <> None /\
      new = [ {| Mongo.collName := name; Mongo.validator := v; Mongo.indexes := [] |} ])).
Proof.
  unfold Mongo.setupCollection.
  destruct (Mongo.ListCollectionNames_fails _);
    [exists []; rewrite app_nil_r; split; [reflexivity | now left]|].
  destruct (existsb _ _); [exists []; rewrite app_nil_r; split; [reflexivity | now left]|].
  destruct (Mongo.CreateCollection_fails _ _);
    [exists []; rewrite app_nil_r; split; [reflexivity | now left]|].
  destruct (Mongo.CreateMany_fails _ _); cbn; eexists; (split; [reflexivity|]).
  - right. right. split; [discriminate | reflexivity].
  - right. left. now split.
Qed.

Lemma setupCollection_success (name : string) (v : json)
  (ixs : list Mongo.IndexModel) (st : Mongo.State) :
  fst (Mongo.setupCollection name v ixs st) = None ->
  In name (map Mongo.collName (Mongo.colls (snd (Mongo.setupCollection name v ixs st)))).
Proof.
  unfold Mongo.setupCollection.
  destruct (Mongo.ListCollectionNames_fails _); [discriminate|].
  destruct (existsb _ _) eqn:Hex; [intros _; now apply existsb_name|].
  destruct (Mongo.CreateCollection_fails _ _); [discriminate|].
  destruct (Mongo.CreateMany_fails _ _); [discriminate|].
  intros _. cbn. rewrite map_app. apply in_or_app. right. now left.
Qed.

Lemma setups_are_setupCollection (name : string)
  (setup : Mongo.State -> option string * Mongo.State) :
  In (name, setup) Mongo.setups ->
  exists v ixs, setup = Mongo.setupCollection name v ixs.
Proof.
  intros [H|[H|[H|[]]]]; inversion H; subst; eexists; eexists; reflexivity.
Qed.

(** X15.  Each of the three setup functions adds at most one collection
    and never touches those that exist; when it reports success the
    collection of its name exists; and run again on what it left, with the
    listing working, it reports success and changes nothing. *)
Theorem setup_is_idempotent (name : string)
  (setup : Mongo.State -> option string * Mongo.State) (st : Mongo.State) :
  In (name, setup) Mongo.setups ->
  (exists new, Mongo.colls (snd (setup st)) = Mongo.colls st ++ new /\
               (List.length new <= 1)%nat) /\
  (fst (setup st) = None ->
   In name (map Mongo.collName (Mongo.colls (snd (setup st)))) /\
   (Mongo.ListCollectionNames_fails (Mongo.colls (snd (setup st))) = false ->
    fst (setup (snd (setup st))) = None /\
    Mongo.colls (snd (setup (snd (setup st)))) = Mongo.colls (snd (setup st)))).
Proof.
  intros Hin. destruct (setups_are_setupCollection name setup Hin) as (v & ixs & ->).
  split.
  - destruct (setupCollection_adds name v ixs st) as [new [Hnew Hcase]].
    exists new. split; [exact Hnew|].
    destruct Hcase as [->|[[_ ->]|[_ ->]]]; cbn; lia.
  - intros Hok. pose proof (setupCollection_success name v ixs st Hok) as Hpresent.
    split; [exact Hpresent|]. intros Hlist.
    now apply setupCollection_present.
Qed.

(** X16.  A setup is not atomic and does not repair itself.  When one of
    the three functions returns an error after having changed the database,
    what it has left is its collection without any index, and every later
    run on that database, with the listing working, finds the name,
    reports success and leaves the collection without indexes. *)
Theorem failed_index_creation_is_never_repaired (name : string)
  (setup : Mongo.State -> option string * Mongo.State) (st : Mongo.State) :
  In (name, setup) Mongo.setups ->
  fst (setup st) <> None ->
  Mongo.colls (snd (setup st)) <> Mongo.colls st ->
  (exists c, Mongo.colls (snd (setup st)) = Mongo.colls st ++ [c] /\
             Mongo.collName c = name /\ Mongo.indexes c = []) /\
  (forall later,
     Mongo.colls later = Mongo.colls (snd (setup st)) ->
     Mongo.ListCollectionNames_fails (Mongo.colls later) = false ->
     fst (setup later) = None /\ Mongo.colls (snd (setup later)) = Mongo.colls later).
Proof.
  intros Hin Herr Hchanged.
  destruct (setups_are_setupCollection name setup Hin) as (v & ixs & ->).
  destruct (setupCollection_adds name v ixs st) as [new [Hnew Hcase]].
  destruct Hcase as [->|[[Hok _]|[_ ->]]].
  - rewrite app_nil_r in Hnew. contradiction.
  - contradiction.
  - split.
    + eexists. split; [exact Hnew | now split].
    + intros later Hsame Hlist. apply setupCollection_present; [exact Hlist|].
      rewrite Hsame, Hnew, map_app. apply in_or_app. right. now left.
Qed.

End MongoFacts.

(** ** More runs on the sample inputs *)


Lemma ticks_emit_roster_rounds_witness :
  exists new,
    calls (fst (generateEvents (repeat false 2 ++ [true]) (producer healthy nine))) =
      calls (producer healthy nine) ++ new /\
    map Key (coordinateMessages new) =
      List.concat (repeat (map ID (@users float binary64)) 2).
Proof.
  apply (@ticks_emit_roster_rounds float binary64 up 2 [] (producer healthy nine)).
  vm_compute. reflexivity.
Defined.

Lemma sink_keeps_ids_distinct_witness :
  NoDup (map row_id
           (table (@consumeLoop float binary64 up
                     [Poll (Some (KMessage (payload event1)))] sink3))).
Proof.
  apply (@sink_keeps_ids_distinct float binary64 up).
  cbn. repeat constructor; cbn; intuition discriminate.
Defined.

Lemma redelivered_message_witness :
  exists r1 r2,
    table (@consumeLoop float binary64 up
             [Poll (Some (KMessage (payload event1)));
              Poll (Some (KMessage (payload event1)))] sink0) =
      table sink0 ++ [r1; r2] /\
    stores r1 event1 /\ stores r2 event1 /\ (row_id r1 < row_id r2)%Z.
Proof.
  apply (@redelivered_message_is_stored_twice float binary64 up
           (payload event1) event1 sink0).
  - reflexivity.
  - vm_compute. reflexivity.
  - intros t. reflexivity.
Defined.

Lemma limit_keeps_the_newest_witness :
  exists kept dropped,
    fst (@getEvents float binary64 up (get [("limit", "2")]) sink3) =
      @listing float binary64 up (scanned kept) /\
    Permutation (kept ++ dropped)
                (filter (matches (queryOf (get [("limit", "2")]))) (table sink3)) /\
    (forall a b, In a kept -> In b dropped -> before a b) /\
    (dropped <> [] ->
     Z.of_nat (List.length kept) = limitOf (Query_Get (Query (get [("limit", "2")])) "limit")).
Proof.
  apply (@limit_keeps_the_newest float binary64 up (get [("limit", "2")]) sink3).
  reflexivity.
Defined.

Lemma stored_rows_are_all_listed_witness :
  let inputs := [Poll (Some (KMessage (payload event1))); Poll None;
                 Poll (Some (KMessage (payload event2)))] in
  let st := @consumeLoop float binary64 up inputs sink0 in
  let r := get [("user_id", "u1"); ("limit", "5")] in
  snd (@getEvents float binary64 up r st) = st /\
  exists events,
    fst (@getEvents float binary64 up r st) = @listing float binary64 up events /\
    List.length events =
      Nat.min (Z.to_nat (limitOf (Query_Get (Query r) "limit")))
              (List.length (filter (matches (queryOf r)) (table st))).
Proof.
  cbv zeta.
  apply (@stored_rows_are_all_listed float binary64 up).
  - constructor.
  - reflexivity.
Defined.

Lemma response_document_witness :
  @decodeEvent float binary64 up (@CoordinateEvent_doc_omitempty float up posted) =
    Some posted.
Proof.
  apply (@response_document_reads_back float binary64 up posted);
    vm_compute; reflexivity.
Defined.

Lemma ingress_to_query_witness :
  let e := @defaulted float up decoded_post (clock (producer healthy [])) in
  let m := {| Topic := "coordinates"; Key := UserID decoded_post;
              Value := @json_render float up (@CoordinateEvent_doc float up e) |} in
  fst (@produceHandler float binary64 up post (producer healthy [])) =
    {| Status := 200; Headers := []; RespBody := "ok" |} /\
  In (CProduce m true)
     (calls (snd (@produceHandler float binary64 up post (producer healthy [])))) /\
  fst (@getEvents float binary64 up
         {| Method := "GET";
            Query := [("user_id", UserID decoded_post); ("limit", "1")];
            Body := "" |}
         (@consumeStep float binary64 up (Poll (Some (KMessage (Value m)))) sink0)) =
    @listing float binary64 up [e].
Proof.
  apply (@ingress_to_query float binary64 up post decoded_post (producer healthy [])
           sink0);
    vm_compute; reflexivity.
Defined.

Lemma setup_is_idempotent_witness :
  let setup := @Mongo.SetupCoordinatesCollection (Mongo.driver true true true) in
  fst (setup Mongo.empty) = None /\
  In "coordinates" (map Mongo.collName (Mongo.colls (snd (setup Mongo.empty)))) /\
  fst (setup (snd (setup Mongo.empty))) = None /\
  Mongo.colls (snd (setup (snd (setup Mongo.empty)))) =
    Mongo.colls (snd (setup Mongo.empty)).
Proof.
  cbv zeta.
  destruct (@setup_is_idempotent (Mongo.driver true true true) "coordinates"
              (@Mongo.SetupCoordinatesCollection (Mongo.driver true true true))
              Mongo.empty) as [_ H].
  - left. reflexivity.
  - split; [reflexivity|]. destruct (H eq_refl) as [Hin Hagain].
    split; [exact Hin|]. exact (Hagain eq_refl).
Defined.

Lemma failed_index_creation_witness :
  let setup := @Mongo.SetupUsersCollection (Mongo.driver true true false) in
  fst (setup Mongo.empty) <> None /\
  (exists c, Mongo.colls (snd (setup Mongo.empty)) = Mongo.colls Mongo.empty ++ [c] /\
             Mongo.collName c = "users" /\ Mongo.indexes c = []) /\
  fst (setup (snd (setup Mongo.empty))) = None /\
  Mongo.colls (snd (setup (snd (setup Mongo.empty)))) =
    Mongo.colls (snd (setup Mongo.empty)).
Proof.
  cbv zeta.
  destruct (@failed_index_creation_is_never_repaired (Mongo.driver true true false)
              "users" (@Mongo.SetupUsersCollection (Mongo.driver true true false))
              Mongo.empty) as [Hc Hlater].
  - right. right. left. reflexivity.
  - discriminate.
  - discriminate.
  - split; [discriminate|]. split; [exact Hc|].
    exact (Hlater _ eq_refl eq_refl).
Defined.

Lemma limit_is_used_as_written_witness :
  limitOf (decimalText 9223372036854775807) = 9223372036854775807%Z /\
  limitOf (decimalText 9223372036854775808) = 50%Z.
Proof.
  split.
  - exact (limit_is_used_as_written 9223372036854775807 eq_refl).
  - exact (limit_is_used_as_written 9223372036854775808 eq_refl).
Defined.

Lemma consume_loop_composes_witness :
  let a := [Poll (Some (KError "broker down")); Poll None;
            Poll (Some (KMessage "not json"))] in
  running (@consumeLoop float binary64 up a sink0) = running sink0.
Proof.
  cbv zeta.
  apply (@consume_loop_composes float binary64 up
           [Poll (Some (KError "broker down")); Poll None;
            Poll (Some (KMessage "not json"))] [] sink0).
  repeat constructor.
Defined.
